(** * SSLShootEnv: the decision logic of rsoccer_gym/ssl/my_envs/ssl_shoot.py

    A shallow embedding of the shoot environment: action decoding, the
    possession heuristic, the reward and termination engine and the
    randomized episode initializer.

    Numbers.  Python and numpy floats are read as real numbers ([R]), the
    usual idealisation: every arithmetic operation is exact.  Comparisons
    are the boolean tests [Rltb], [Rleb], [Rgtb].

    Failure.  Anything that raises in Python (a division by zero, a missing
    roster entry, a comparison with [None], a failed [assert]) and any loop
    that uses up its fuel is [None] in the [option] error monad.

    Randomness.  The two generators the code draws from (the [random]
    module and the generator of the gym action space) are oracles: a
    stream of unit draws and a cursor, threaded through explicitly. *)

From Stdlib Require Import Reals Lra Lia List ZArith Bool.
Import ListNotations.

Open Scope R_scope.

(** ** Comparisons and the error monad *)

Definition Rltb (a b : R) : bool := if Rlt_dec a b then true else false.
Definition Rleb (a b : R) : bool := if Rle_dec a b then true else false.
Definition Rgtb (a b : R) : bool := Rltb b a.

Definition bind {A B : Type} (m : option A) (k : A -> option B) : option B :=
  match m with
  | Some a => k a
  | None => None
  end.

Notation "x <- m ;; k" := (bind m (fun x => k))
  (at level 61, m at next level, right associativity).
Notation "' p <- m ;; k" := (bind m (fun v => let p := v in k))
  (at level 61, p pattern, m at next level, right associativity).

(** Division that raises on a zero divisor. *)
Definition checked_div (a b : R) : option R :=
  if Req_dec_T b 0 then None else Some (a / b).

(** ** numpy and math helpers *)

(** [np.deg2rad], [math.radians]. *)
Definition deg2rad (d : R) : R := d * (PI / 180).

(** [np.linalg.norm([a, b])]. *)
Definition norm2 (a b : R) : R := sqrt (a * a + b * b).

(** [np.clip(v, lo, hi)]. *)
Definition clip (v lo hi : R) : R := Rmin (Rmax v lo) hi.

(** [math.atan2(y, x)], by quadrant. *)
Definition atan2 (y x : R) : R :=
  if Rltb 0 x then atan (y / x)
  else if Rltb x 0 then
         if Rleb 0 y then atan (y / x) + PI else atan (y / x) - PI
       else if Rltb 0 y then PI / 2
            else if Rltb y 0 then - (PI / 2) else 0.

(** ** Entities (rsoccer_gym.Entities): the fields the environment uses *)

Module Ball.
Record t : Type := mk { x : R; y : R; v_x : R; v_y : R }.
End Ball.

Module Robot.
Record t : Type := mk {
  yellow : bool; id : nat;
  x : R; y : R; theta : R;
  v_x : R; v_y : R; v_theta : R;
  kick_v_x : R; dribbler : bool;
  v_wheel0 : R; v_wheel1 : R; v_wheel2 : R; v_wheel3 : R }.

(** [Robot(x=.., y=.., theta=..)], the other fields at their defaults; a
    field the constructor leaves at [None] reads as [false] or 0. *)
Definition placed (px py ptheta : R) : t :=
  mk false 0%nat px py ptheta 0 0 0 0 false 0 0 0 0.

(** [Robot(yellow=.., id=.., v_x=.., v_y=.., v_theta=.., kick_v_x=..,
    dribbler=..)], a command. *)
Definition command (ylw : bool) (i : nat) (vx vy vtheta kick : R)
    (drib : bool) : t :=
  mk ylw i 0 0 0 vx vy vtheta kick drib 0 0 0 0.
End Robot.

(** The rosters are dictionaries keyed 0 .. n-1; a list holds their
    values in key order, and a missing key is a failed lookup. *)
Module Frame.
Record t : Type := mk {
  ball : Ball.t;
  robots_blue : list Robot.t;
  robots_yellow : list Robot.t }.
End Frame.

Module Field.
Record t : Type := mk {
  length : R; width : R;
  penalty_length : R; penalty_width : R; goal_width : R }.
End Field.

(** The policy's action, [Box(4,)]. *)
Module Action.
Record t : Type := mk { a0 : R; a1 : R; a2 : R; a3 : R }.

Definition in_box (a : t) : Prop :=
  -1 <= a0 a <= 1 /\ -1 <= a1 a <= 1 /\ -1 <= a2 a <= 1 /\ -1 <= a3 a <= 1.
End Action.

(** ** Constants fixed by [__init__] *)

Definition n_robots_blue : nat := 3.
Definition n_robots_yellow : nat := 3.
Definition max_v : R := 2.5.
Definition max_w : R := 10.
Definition kick_speed_x : R := 5.
Definition energy_scale : R := (160 * 4) * 1000.

(** ** Action decoder *)

(** The global velocity turned into the robot's frame. *)
Definition to_local (v_x v_y angle : R) : R * R :=
  (v_x * cos angle + v_y * sin angle, - v_x * sin angle + v_y * cos angle).

(** [c = v_norm < self.max_v or self.max_v / v_norm]: [True] (that is 1)
    when the norm is below [max_v]; the quotient is evaluated only
    otherwise. *)
Definition clip_factor (v_norm : R) : option R :=
  if Rltb v_norm max_v then Some 1 else checked_div max_v v_norm.

(** [convert_actions]: denormalize, rotate, clip by the norm. *)
Definition convert_actions (action : Action.t) (angle : R)
    : option (R * R * R) :=
  let v_x := Action.a0 action * max_v in
  let v_y := Action.a1 action * max_v in
  let v_theta := Action.a2 action * max_w in
  let '(v_x, v_y) := to_local v_x v_y angle in
  let v_norm := norm2 v_x v_y in
  c <- clip_factor v_norm ;;
  Some (v_x * c, v_y * c, v_theta).

(** ** Environment state *)

(** The diagnostics mapping [reward_shaping_total]: one field per key. *)
Module Totals.
Record t : Type := mk {
  goal : Z; done_left_out : Z; done_ball_out : Z; done_robot_out : Z;
  done_robot_in_gk_area : Z;
  rw_ball_grad : R; rw_robot_grad : R; rw_robot_orientation : R;
  rw_energy : R }.

Definition zero : t := mk 0 0 0 0 0 0 0 0 0.

Definition add_goal (d : Z) (s : t) : t :=
  mk (goal s + d) (done_left_out s) (done_ball_out s) (done_robot_out s)
     (done_robot_in_gk_area s) (rw_ball_grad s) (rw_robot_grad s)
     (rw_robot_orientation s) (rw_energy s).
Definition add_done_left_out (d : Z) (s : t) : t :=
  mk (goal s) (done_left_out s + d) (done_ball_out s) (done_robot_out s)
     (done_robot_in_gk_area s) (rw_ball_grad s) (rw_robot_grad s)
     (rw_robot_orientation s) (rw_energy s).
Definition add_done_ball_out (d : Z) (s : t) : t :=
  mk (goal s) (done_left_out s) (done_ball_out s + d) (done_robot_out s)
     (done_robot_in_gk_area s) (rw_ball_grad s) (rw_robot_grad s)
     (rw_robot_orientation s) (rw_energy s).
Definition add_done_robot_out (d : Z) (s : t) : t :=
  mk (goal s) (done_left_out s) (done_ball_out s) (done_robot_out s + d)
     (done_robot_in_gk_area s) (rw_ball_grad s) (rw_robot_grad s)
     (rw_robot_orientation s) (rw_energy s).
Definition add_rw_ball_grad (d : R) (s : t) : t :=
  mk (goal s) (done_left_out s) (done_ball_out s) (done_robot_out s)
     (done_robot_in_gk_area s) (rw_ball_grad s + d) (rw_robot_grad s)
     (rw_robot_orientation s) (rw_energy s).
Definition add_rw_robot_grad (d : R) (s : t) : t :=
  mk (goal s) (done_left_out s) (done_ball_out s) (done_robot_out s)
     (done_robot_in_gk_area s) (rw_ball_grad s) (rw_robot_grad s + d)
     (rw_robot_orientation s) (rw_energy s).
Definition add_rw_energy (d : R) (s : t) : t :=
  mk (goal s) (done_left_out s) (done_ball_out s) (done_robot_out s)
     (done_robot_in_gk_area s) (rw_ball_grad s) (rw_robot_grad s)
     (rw_robot_orientation s) (rw_energy s + d).
End Totals.

(** The attributes of [SSLShootEnv] (and of its base class) that the
    decision logic reads or writes. *)
Module Env.
Record t : Type := mk {
  field : Field.t;
  frame : Frame.t;
  last_frame : option Frame.t;
  active_robot_idx : nat;
  last_possession : Z;
  possession_robot_idx : Z;
  done_limit : option R;
  dribbler_time : nat;
  commands : option (list Robot.t);
  reward_shaping_total : Totals.t }.

Definition with_frame (v : Frame.t) (e : t) : t :=
  mk (field e) v (last_frame e) (active_robot_idx e) (last_possession e)
     (possession_robot_idx e) (done_limit e) (dribbler_time e) (commands e)
     (reward_shaping_total e).
Definition with_last_frame (v : option Frame.t) (e : t) : t :=
  mk (field e) (frame e) v (active_robot_idx e) (last_possession e)
     (possession_robot_idx e) (done_limit e) (dribbler_time e) (commands e)
     (reward_shaping_total e).
Definition with_active_robot_idx (v : nat) (e : t) : t :=
  mk (field e) (frame e) (last_frame e) v (last_possession e)
     (possession_robot_idx e) (done_limit e) (dribbler_time e) (commands e)
     (reward_shaping_total e).
Definition with_last_possession (v : Z) (e : t) : t :=
  mk (field e) (frame e) (last_frame e) (active_robot_idx e) v
     (possession_robot_idx e) (done_limit e) (dribbler_time e) (commands e)
     (reward_shaping_total e).
Definition with_possession_robot_idx (v : Z) (e : t) : t :=
  mk (field e) (frame e) (last_frame e) (active_robot_idx e)
     (last_possession e) v (done_limit e) (dribbler_time e) (commands e)
     (reward_shaping_total e).
Definition with_done_limit (v : option R) (e : t) : t :=
  mk (field e) (frame e) (last_frame e) (active_robot_idx e)
     (last_possession e) (possession_robot_idx e) v (dribbler_time e)
     (commands e) (reward_shaping_total e).
Definition with_dribbler_time (v : nat) (e : t) : t :=
  mk (field e) (frame e) (last_frame e) (active_robot_idx e)
     (last_possession e) (possession_robot_idx e) (done_limit e) v
     (commands e) (reward_shaping_total e).
Definition with_commands (v : option (list Robot.t)) (e : t) : t :=
  mk (field e) (frame e) (last_frame e) (active_robot_idx e)
     (last_possession e) (possession_robot_idx e) (done_limit e)
     (dribbler_time e) v (reward_shaping_total e).
Definition with_reward_shaping_total (v : Totals.t) (e : t) : t :=
  mk (field e) (frame e) (last_frame e) (active_robot_idx e)
     (last_possession e) (possession_robot_idx e) (done_limit e)
     (dribbler_time e) (commands e) v.
End Env.

(** The team argument, ["blue"] or ["yellow"]. *)
Inductive Team : Type := blue | yellow.

Definition roster (f : Frame.t) (team : Team) : list Robot.t :=
  match team with
  | blue => Frame.robots_blue f
  | yellow => Frame.robots_yellow f
  end.

(** ** Possession heuristic *)

Definition robot_dist (px py : R) (r : Robot.t) : R :=
  norm2 (Robot.x r - px) (Robot.y r - py).

Fixpoint nearest_from (px py : R) (i : nat) (rs : list Robot.t)
    (best : nat * R) : nat * R :=
  match rs with
  | [] => best
  | r :: rs' =>
      let d := robot_dist px py r in
      nearest_from px py (S i) rs' (if Rltb d (snd best) then (i, d) else best)
  end.

(** Modelled from the spec: [get_nearest_robot_idx] belongs to the base
    environment, which is not among the sources.  "Finds the nearest blue
    robot and nearest yellow robot to the ball (Euclidean distance in the
    field plane)": the index of a robot of the team at least distance from
    the position, with that distance; the first such robot on equal
    distances; a failure on an empty roster. *)
Definition get_nearest_robot_idx (f : Frame.t) (px py : R) (team : Team)
    : option (nat * R) :=
  match roster f team with
  | [] => None
  | r :: rs => Some (nearest_from px py 1 rs (0%nat, robot_dist px py r))
  end.

(** [while angle < -math.pi: angle += 2 * math.pi] *)
Fixpoint wrap_up (fuel : nat) (angle : R) : option R :=
  if Rltb angle (- PI) then
    match fuel with
    | O => None
    | S n => wrap_up n (angle + 2 * PI)
    end
  else Some angle.

(** [while angle > math.pi: angle -= 2 * math.pi] *)
Fixpoint wrap_down (fuel : nat) (angle : R) : option R :=
  if Rgtb angle PI then
    match fuel with
    | O => None
    | S n => wrap_down n (angle - 2 * PI)
    end
  else Some angle.

(** The alignment score of a heading [theta] (radians) at (Xr, Yr) with
    respect to the ball at (Xb, Yb), as [__is_toward_ball] computes it. *)
Definition alignment (fuel : nat) (Xr Yr theta Xb Yb : R) : option R :=
  let line_angle := atan2 (Yb - Yr) (Xb - Xr) in
  let angle := line_angle - theta in
  angle <- wrap_up fuel angle ;;
  angle <- wrap_down fuel angle ;;
  let value := PI - Rabs angle in
  let normalized_value := (value - 0) / (PI - 0) in
  Some normalized_value.

(** [__is_toward_ball(team, idx)] *)
Definition is_toward_ball (fuel : nat) (f : Frame.t) (team : Team)
    (idx : nat) : option bool :=
  r <- nth_error (roster f team) idx ;;
  let Xr := Robot.x r in
  let Yr := Robot.y r in
  let theta := deg2rad (Robot.theta r) in
  let Xb := Ball.x (Frame.ball f) in
  let Yb := Ball.y (Frame.ball f) in
  normalized_value <- alignment fuel Xr Yr theta Xb Yb ;;
  Some (Rleb 0.9 normalized_value).

Definition threshold : R := 0.15.

(** The possession test of [_frame_to_observations], run once a command
    set exists.  [and] evaluates its operands left to right and stops at
    the first false one. *)
Definition possession_update (fuel : nat) (cmds : list Robot.t)
    (nearest_blue_robot : nat) (nearest_blue_robot_dist : R)
    (nearest_yellow_robot : nat) (nearest_yellow_robot_dist : R)
    (e : Env.t) : option Env.t :=
  let f := Env.frame e in
  if Rleb nearest_blue_robot_dist nearest_yellow_robot_dist then
    if Rleb nearest_blue_robot_dist threshold then
      c <- nth_error cmds nearest_blue_robot ;;
      if Robot.dribbler c then
        t <- is_toward_ball fuel f blue nearest_blue_robot ;;
        Some (if t : bool
              then Env.with_possession_robot_idx
                     (Z.of_nat nearest_blue_robot) e
              else e)
      else Some e
    else Some e
  else
    if Rleb nearest_yellow_robot_dist threshold then
      c <- nth_error cmds (n_robots_blue + nearest_yellow_robot) ;;
      if Robot.dribbler c then
        t <- is_toward_ball fuel f yellow nearest_blue_robot ;;
        Some (if t : bool
              then Env.with_possession_robot_idx
                     (3 + Z.of_nat nearest_yellow_robot) e
              else e)
      else Some e
    else Some e.

(** [for i in range(n)]: the robots 0 .. n-1 of a roster, a failure when
    one is missing. *)
Fixpoint take_robots (n : nat) (rs : list Robot.t) : option (list Robot.t) :=
  match n with
  | O => Some []
  | S n' =>
      match rs with
      | [] => None
      | r :: rs' => rest <- take_robots n' rs' ;; Some (r :: rest)
      end
  end.

(** ** Random sources *)

Module Rng.
Record t : Type := mk { stream : nat -> R; cursor : nat }.

(** One unit draw. *)
Definition random (g : t) : R * t :=
  (stream g (cursor g), mk (stream g) (S (cursor g))).

(** [uniform(a, b)] is [a + (b - a) * random()]. *)
Definition uniform (a b : R) (g : t) : R * t :=
  let '(u, g) := random g in (a + (b - a) * u, g).
End Rng.

(** The generator of the [random] module and the one of the action
    space. *)
Module Rand.
Record t : Type := mk { py : Rng.t; np : Rng.t }.
End Rand.

(** [self.action_space.sample()] on [Box(-1, 1, (4,))]. *)
Definition action_space_sample (g : Rng.t) : Action.t * Rng.t :=
  let '(s0, g) := Rng.uniform (-1) 1 g in
  let '(s1, g) := Rng.uniform (-1) 1 g in
  let '(s2, g) := Rng.uniform (-1) 1 g in
  let '(s3, g) := Rng.uniform (-1) 1 g in
  (Action.mk s0 s1 s2 s3, g).

(** ** Commands *)

(** The body of the loop over the blue robots in [_get_commands]. *)
Definition blue_command (e : Env.t) (actions : Action.t) (i : nat)
    (rand : Rand.t) : option (Robot.t * Rand.t) :=
  if negb (i =? Env.active_robot_idx e)%nat then
    let '(random_actions, npg) := action_space_sample (Rand.np rand) in
    r <- nth_error (Frame.robots_blue (Env.frame e)) i ;;
    let angle := Robot.theta r in
    '(v_x, v_y, v_theta) <- convert_actions random_actions (deg2rad angle) ;;
    let '(u, pyg) := Rng.uniform (-1) 1 (Rand.py rand) in
    Some (Robot.command false i v_x v_y v_theta
            (if Rltb u (Action.a3 actions) then kick_speed_x else 0) true,
          Rand.mk pyg npg)
  else
    r <- nth_error (Frame.robots_blue (Env.frame e)) (Env.active_robot_idx e) ;;
    let angle := Robot.theta r in
    '(v_x, v_y, v_theta) <- convert_actions actions (deg2rad angle) ;;
    let '(u, pyg) := Rng.uniform (-1) 1 (Rand.py rand) in
    Some (Robot.command false 0 v_x v_y v_theta
            (if Rltb u (Action.a3 actions) then kick_speed_x else 0) true,
          Rand.mk pyg (Rand.np rand)).

(** The body of the loop over the yellow robots. *)
Definition yellow_command (e : Env.t) (i : nat) (rand : Rand.t)
    : option (Robot.t * Rand.t) :=
  let '(random_actions, npg) := action_space_sample (Rand.np rand) in
  r <- nth_error (Frame.robots_yellow (Env.frame e)) i ;;
  let angle := Robot.theta r in
  '(v_x, v_y, v_theta) <- convert_actions random_actions (deg2rad angle) ;;
  Some (Robot.command true i v_x v_y v_theta
          (if Rgtb (Action.a3 random_actions) 0 then kick_speed_x else 0) true,
        Rand.mk (Rand.py rand) npg).

(** [for i in range(..): commands.append(cmd)] *)
Fixpoint for_commands (body : nat -> Rand.t -> option (Robot.t * Rand.t))
    (range : list nat) (rand : Rand.t) : option (list Robot.t * Rand.t) :=
  match range with
  | [] => Some ([], rand)
  | i :: range' =>
      '(cmd, rand) <- body i rand ;;
      '(cmds, rand) <- for_commands body range' rand ;;
      Some (cmd :: cmds, rand)
  end.

(** [_get_commands] *)
Definition get_commands (e : Env.t) (actions : Action.t) (rand : Rand.t)
    : option (list Robot.t * Env.t * Rand.t) :=
  '(blues, rand) <-
    for_commands (blue_command e actions) (seq 0 n_robots_blue) rand ;;
  '(yellows, rand) <-
    for_commands (yellow_command e) (seq 0 n_robots_yellow) rand ;;
  let commands := blues ++ yellows in
  Some (commands, Env.with_commands (Some commands) e, rand).

(** The kick decision of a blue command: the draw of the [random] module
    against the fourth component of the policy's action. *)
Definition blue_kick (actions : Action.t) (rand : Rand.t) : R :=
  if Rltb (fst (Rng.uniform (-1) 1 (Rand.py rand))) (Action.a3 actions)
  then kick_speed_x else 0.

(** A frame with the full rosters. *)
Definition full_rosters (f : Frame.t) : Prop :=
  List.length (Frame.robots_blue f) = n_robots_blue /\
  List.length (Frame.robots_yellow f) = n_robots_yellow.

(** ** Reward and termination engine *)

Definition min3 (a b c : R) : R := Rmin (Rmin a b) c.

(** [__energy_pen] *)
Definition energy_pen (e : Env.t) : option R :=
  robot <- nth_error (Frame.robots_blue (Env.frame e)) 0 ;;
  Some (Rabs (Robot.v_wheel0 robot) + Rabs (Robot.v_wheel1 robot)
        + Rabs (Robot.v_wheel2 robot) + Rabs (Robot.v_wheel3 robot)).

(** [__ball_grad_rw] *)
Definition ball_grad_rw (e : Env.t) : option R :=
  last_frame <- Env.last_frame e ;;
  let mid_goalpost := (Field.length (Env.field e) / 2, 0) in
  let last_ball := Frame.ball last_frame in
  let ball := Frame.ball (Env.frame e) in
  let last_ball_dist :=
    norm2 (fst mid_goalpost - Ball.x last_ball)
          (snd mid_goalpost - Ball.y last_ball) in
  let ball_dist :=
    norm2 (fst mid_goalpost - Ball.x ball) (snd mid_goalpost - Ball.y ball) in
  let ball_grad := last_ball_dist - ball_dist in
  let ball_grad := ball_grad * (1 / 0.1) in
  Some (clip ball_grad (-1) 1).

(** The least distance of a position to the two posts and the centre of
    the attacking goal. *)
Definition goal_dist (fld : Field.t) (px py : R) : R :=
  let up_goalpost := (Field.length fld / 2, Field.goal_width fld / 2) in
  let down_goalpost := (Field.length fld / 2, - Field.goal_width fld / 2) in
  let mid_goalpost := (Field.length fld / 2, 0) in
  min3 (norm2 (fst up_goalpost - px) (snd up_goalpost - py))
       (norm2 (fst down_goalpost - px) (snd down_goalpost - py))
       (norm2 (fst mid_goalpost - px) (snd mid_goalpost - py)).

(** [__robot_grad_rw] *)
Definition robot_grad_rw (e : Env.t) : option R :=
  last_frame <- Env.last_frame e ;;
  last_robot <- nth_error (Frame.robots_blue last_frame)
                          (Env.active_robot_idx e) ;;
  robot <- nth_error (Frame.robots_blue (Env.frame e))
                     (Env.active_robot_idx e) ;;
  let last_robot_dist :=
    goal_dist (Env.field e) (Robot.x last_robot) (Robot.y last_robot) in
  let robot_dist :=
    goal_dist (Env.field e) (Robot.x robot) (Robot.y robot) in
  let ball_grad := last_robot_dist - robot_dist in
  let ball_grad := ball_grad * (1 / 0.1) in
  Some (clip ball_grad (-1) 1).

(** The last branch of the chain in [_calculate_reward_and_done]: the
    shaped reward, when a previous frame exists. *)
Definition shaped_reward (e : Env.t) (totals : Totals.t) (reward : R)
    (done : bool) : option (R * bool * Totals.t) :=
  match Env.last_frame e with
  | None => Some (reward, done, totals)
  | Some _ =>
      ball_grad_rw_ <- ball_grad_rw e ;;
      let totals := Totals.add_rw_ball_grad ball_grad_rw_ totals in
      g <- robot_grad_rw e ;;
      let robot_grad_rw_ := 0.2 * g in
      let totals := Totals.add_rw_robot_grad robot_grad_rw_ totals in
      p <- energy_pen e ;;
      let energy_rw := - p / energy_scale in
      let totals := Totals.add_rw_energy energy_rw totals in
      Some (ball_grad_rw_ + robot_grad_rw_ + energy_rw, done, totals)
  end.

(** [_calculate_reward_and_done].  The mapping is rebuilt from zero, then
    comes the test against [done_limit], then, as a separate statement,
    the [if]/[elif] chain. *)
Definition calculate_reward_and_done (e : Env.t)
    : option (R * bool * Env.t) :=
  let totals := Totals.zero in
  let reward := 0 in
  let done := false in
  let half_len := Field.length (Env.field e) / 2 in
  let half_wid := Field.width (Env.field e) / 2 in
  let half_goal_wid := Field.goal_width (Env.field e) / 2 in
  let ball := Frame.ball (Env.frame e) in
  robot <- nth_error (Frame.robots_blue (Env.frame e)) 0 ;;
  done_limit <- Env.done_limit e ;;
  let '(reward, done, totals) :=
    if Rltb (Robot.x robot) done_limit || Rltb (Ball.x ball) done_limit
    then (-10, true, Totals.add_done_left_out 1 totals)
    else (reward, done, totals) in
  '(reward, done, totals) <-
    (if Rgtb (Rabs (Robot.y robot)) half_wid
        || Rgtb (Rabs (Robot.x robot)) half_len
     then Some (reward, true, Totals.add_done_robot_out 1 totals)
     else if Rgtb (Rabs (Ball.y ball)) half_wid
     then Some (reward, true, Totals.add_done_ball_out 1 totals)
     else if Rltb (Ball.x ball) (- half_len)
             || Rgtb (Rabs (Ball.y ball)) half_wid
     then
       if Rltb (Rabs (Ball.y ball)) half_goal_wid
       then Some (-50, true, Totals.add_goal (-1) totals)
       else Some (reward, true, Totals.add_done_ball_out 1 totals)
     else if Rgtb (Ball.x ball) half_len
     then
       if Rltb (Rabs (Ball.y ball)) half_goal_wid
       then Some (50, true, Totals.add_goal 1 totals)
       else Some (reward, true, Totals.add_done_ball_out 1 totals)
     else shaped_reward e totals reward done) ;;
  Some (reward, done, Env.with_reward_shaping_total totals e).

(** ** Episode initializer *)

(** Modelled from the spec: [KDTree] (rsoccer_gym.Utils) is not among the
    sources.  "Spatial Index (nearest-neighbor placement helper): used
    only during randomized initial placement to avoid overlap": the
    points inserted so far; [get_nearest] gives a stored point at least
    Euclidean distance from the query, with that distance. *)
Module KDTree.
Definition t : Type := list (R * R).

Definition empty : t := [].

Definition insert (p : R * R) (tr : t) : t := tr ++ [p].

Definition dist (p q : R * R) : R := norm2 (fst p - fst q) (snd p - snd q).

Fixpoint nearest_of (p : R * R) (best : (R * R) * R) (tr : t)
    : (R * R) * R :=
  match tr with
  | [] => best
  | q :: tr' =>
      nearest_of p
        (if Rltb (dist p q) (snd best) then (q, dist p q) else best) tr'
  end.

Definition get_nearest (p : R * R) (tr : t) : option ((R * R) * R) :=
  match tr with
  | [] => None
  | q :: tr' => Some (nearest_of p (q, dist p q) tr')
  end.
End KDTree.

Definition min_dist : R := 0.2.

(** The local helpers [x()], [y()], [theta()] and [in_gk_area]. *)
Definition x_ (fld : Field.t) (g : Rng.t) : R * Rng.t :=
  Rng.uniform (- Field.length fld / 2 + 0.2) (Field.length fld / 2 - 0.2) g.

Definition y_ (fld : Field.t) (g : Rng.t) : R * Rng.t :=
  Rng.uniform (- Field.width fld / 2 + 0.2) (Field.width fld / 2 - 0.2) g.

Definition theta_ (g : Rng.t) : R * Rng.t := Rng.uniform 0 360 g.

Definition in_gk_area (fld : Field.t) (ox oy : R) : bool :=
  let half_len := Field.length fld / 2 in
  let pen_len := Field.penalty_length fld in
  let half_pen_wid := Field.penalty_width fld / 2 in
  Rgtb ox (half_len - pen_len) && Rltb (Rabs oy) half_pen_wid.

(** [Ball(x=x(), y=y())] *)
Definition sample_ball (fld : Field.t) (g : Rng.t) : Ball.t * Rng.t :=
  let '(bx, g) := x_ fld g in
  let '(by_, g) := y_ fld g in
  (Ball.mk bx by_ 0 0, g).

(** [(x(), y())] *)
Definition sample_pos (fld : Field.t) (g : Rng.t) : (R * R) * Rng.t :=
  let '(px, g) := x_ fld g in
  let '(py, g) := y_ fld g in
  ((px, py), g).

(** [while in_gk_area(pos_frame.ball): pos_frame.ball = Ball(x=x(), y=y())] *)
Fixpoint retry_ball (fuel : nat) (fld : Field.t) (ball : Ball.t) (g : Rng.t)
    : option (Ball.t * Rng.t) :=
  if in_gk_area fld (Ball.x ball) (Ball.y ball) then
    match fuel with
    | O => None
    | S n => let '(b, g) := sample_ball fld g in retry_ball n fld b g
    end
  else Some (ball, g).

(** [while places.get_nearest(pos)[1] < min_dist: pos = (x(), y())] *)
Fixpoint retry_pos (fuel : nat) (fld : Field.t) (places : KDTree.t)
    (pos : R * R) (g : Rng.t) : option ((R * R) * Rng.t) :=
  '(_, d) <- KDTree.get_nearest pos places ;;
  if Rltb d min_dist then
    match fuel with
    | O => None
    | S n => let '(pos, g) := sample_pos fld g in retry_pos n fld places pos g
    end
  else Some (pos, g).

(** The two placement loops.  [skip] is the [continue] of the blue loop;
    the rosters are filled in index order, so writing entry [i] is adding
    at the end. *)
Fixpoint place_robots (fuel : nat) (fld : Field.t) (range : list nat)
    (skip : nat -> bool) (places : KDTree.t) (robots : list Robot.t)
    (g : Rng.t) : option (KDTree.t * list Robot.t * Rng.t) :=
  match range with
  | [] => Some (places, robots, g)
  | i :: range' =>
      if skip i then place_robots fuel fld range' skip places robots g
      else
        let '(pos, g) := sample_pos fld g in
        '(pos, g) <- retry_pos fuel fld places pos g ;;
        let places := KDTree.insert pos places in
        let '(th, g) := theta_ g in
        place_robots fuel fld range' skip places
          (robots ++ [Robot.placed (fst pos) (snd pos) th]) g
  end.

(** [_get_initial_positions_frame]: the frame, the environment with its
    [done_limit] set, and the generator. *)
Definition get_initial_positions_frame (fuel : nat) (e : Env.t) (g : Rng.t)
    : option (Frame.t * Env.t * Rng.t) :=
  let fld := Env.field e in
  let '(b, g) := sample_ball fld g in
  '(ball, g) <- retry_ball fuel fld b g ;;
  let places := KDTree.empty in
  let places := KDTree.insert (Ball.x ball, Ball.y ball) places in
  let r := 0.09 in
  let '(angle, g) := theta_ g in
  let robot_x := Ball.x ball + r * cos (deg2rad angle) in
  let robot_y := Ball.y ball + r * sin (deg2rad angle) in
  let robot0 := Robot.placed robot_x robot_y (angle + 180) in
  let e := Env.with_done_limit (Some (robot_x - 0.5)) e in
  let places := KDTree.insert (Ball.x ball, Ball.y ball) places in
  '(places, blues, g) <-
    place_robots fuel fld (seq 0 n_robots_blue) (fun i => (i =? 0)%nat)
      places [robot0] g ;;
  '(places, yellows, g) <-
    place_robots fuel fld (seq 0 n_robots_yellow) (fun _ => false)
      places [] g ;;
  Some (Frame.mk ball blues yellows, e, g).

Section Base.

(** The normalisations of the base environment and the simulator, which
    are not among the sources: [norm_pos], [norm_v], [norm_w], and the
    frame [rsim] hands back once it has received a command set. *)
Variables norm_pos norm_v norm_w : R -> R.
Variable rsim : Frame.t -> list Robot.t -> Frame.t.

Definition observe_ball (b : Ball.t) : list R :=
  [norm_pos (Ball.x b); norm_pos (Ball.y b);
   norm_v (Ball.v_x b); norm_v (Ball.v_y b)].

Definition observe_blue (r : Robot.t) : list R :=
  [norm_pos (Robot.x r); norm_pos (Robot.y r);
   sin (deg2rad (Robot.theta r)); cos (deg2rad (Robot.theta r));
   norm_v (Robot.v_x r); norm_v (Robot.v_y r); norm_w (Robot.v_theta r)].

Definition observe_yellow (r : Robot.t) : list R :=
  [norm_pos (Robot.x r); norm_pos (Robot.y r);
   norm_v (Robot.v_x r); norm_v (Robot.v_y r); norm_w (Robot.v_theta r)].

(** [_frame_to_observations]: the observation vector and the possession
    bookkeeping. *)
Definition frame_to_observations (fuel : nat) (e : Env.t)
    : option (list R * Env.t) :=
  let f := Env.frame e in
  blues <- take_robots n_robots_blue (Frame.robots_blue f) ;;
  yellows <- take_robots n_robots_yellow (Frame.robots_yellow f) ;;
  let observation :=
    observe_ball (Frame.ball f) ++ flat_map observe_blue blues
      ++ flat_map observe_yellow yellows in
  let bx := Ball.x (Frame.ball f) in
  let by_ := Ball.y (Frame.ball f) in
  '(nearest_blue_robot, nearest_blue_robot_dist) <-
    get_nearest_robot_idx f bx by_ blue ;;
  '(nearest_yellow_robot, nearest_yellow_robot_dist) <-
    get_nearest_robot_idx f bx by_ yellow ;;
  let e := Env.with_last_possession (Env.possession_robot_idx e) e in
  let e := Env.with_active_robot_idx nearest_blue_robot e in
  let e := Env.with_possession_robot_idx (-1) e in
  e <- match Env.commands e with
       | None => Some e
       | Some cmds =>
           possession_update fuel cmds
             nearest_blue_robot nearest_blue_robot_dist
             nearest_yellow_robot nearest_yellow_robot_dist e
       end ;;
  Some (observation, e).

(** Modelled from the spec: [SSLBaseEnv.step] is not among the sources.
    "runs Action Decoder for all robots, submits commands to the
    external simulator, receives the new Frame, runs Reward &
    Termination Engine, returns the tuple"; the previous frame "is
    replaced, never mutated in place, each tick", and the observation
    encoder runs on the new frame. *)
Definition base_step (fuel : nat) (e : Env.t) (action : Action.t)
    (rand : Rand.t) : option (list R * R * bool * Env.t * Rand.t) :=
  '(commands, e, rand) <- get_commands e action rand ;;
  let e := Env.with_last_frame (Some (Env.frame e)) e in
  let e := Env.with_frame (rsim (Env.frame e) commands) e in
  '(reward, done, e) <- calculate_reward_and_done e ;;
  '(observation, e) <- frame_to_observations fuel e ;;
  Some (observation, reward, done, e, rand).

(** [step]: the base step, with the diagnostics mapping as the fourth
    component. *)
Definition step (fuel : nat) (e : Env.t) (action : Action.t)
    (rand : Rand.t)
    : option (list R * R * bool * Totals.t * Env.t * Rand.t) :=
  '(observation, reward, done, e, rand) <- base_step fuel e action rand ;;
  Some (observation, reward, done, Env.reward_shaping_total e, e, rand).

End Base.

(** ** The gradient terms as the specification words them *)

(** Euclidean distance between two points of the field plane. *)
Definition spec_distance (px py qx qy : R) : R :=
  sqrt ((px - qx) ^ 2 + (py - qy) ^ 2).

(** "(previous distance - current distance), scaled by 10, clamped to
    [-1,1]". *)
Definition spec_progress (previous current : R) : R :=
  Rmax (-1) (Rmin 1 (10 * (previous - current))).

(** Distance to the centre of the attacking goal. *)
Definition spec_goal_center_dist (fld : Field.t) (px py : R) : R :=
  spec_distance px py (Field.length fld / 2) 0.

(** "minimum distance ... to {goal-center, upper post, lower post}". *)
Definition spec_goal_min_dist (fld : Field.t) (px py : R) : R :=
  Rmin (spec_goal_center_dist fld px py)
       (Rmin (spec_distance px py (Field.length fld / 2)
                            (Field.goal_width fld / 2))
             (spec_distance px py (Field.length fld / 2)
                            (- (Field.goal_width fld / 2)))).

(** ** The legal starting frame *)

Definition ball_pos (b : Ball.t) : R * R := (Ball.x b, Ball.y b).

Definition pos_of (r : Robot.t) : R * R := (Robot.x r, Robot.y r).

(** Any two points of the list, taken in order, are at least [min_dist]
    apart. *)
Definition separated (pts : list (R * R)) : Prop :=
  ForallOrdPairs (fun p q => min_dist <= KDTree.dist p q) pts.

(** The ball and all the robots of a frame. *)
Definition entities (f : Frame.t) : list (R * R) :=
  ball_pos (Frame.ball f)
    :: map pos_of (Frame.robots_blue f) ++ map pos_of (Frame.robots_yellow f).

(** The ball and the robots placed by the two loops: every robot but
    blue robot 0. *)
Definition loop_placed (f : Frame.t) : list (R * R) :=
  ball_pos (Frame.ball f)
    :: map pos_of (tl (Frame.robots_blue f))
       ++ map pos_of (Frame.robots_yellow f).

(** Each point of [added] is at least [min_dist] from the points of
    [base] and from the points added before it. *)
Fixpoint far_chain (base added : list (R * R)) : Prop :=
  match added with
  | [] => True
  | p :: rest =>
      Forall (fun q => min_dist <= KDTree.dist p q) base
      /\ far_chain (base ++ [p]) rest
  end.

(** ** The size of the observation space *)

(** [n_obs] of [__init__]. *)
Definition n_obs : nat := 4 + 7 * n_robots_blue + 5 * n_robots_yellow.

(** ** Reward terms the engine does not call *)

(** [__towards_ball_rw]: the alignment of blue robot 0 with the ball,
    raised to 1 above 0.9. *)
Definition towards_ball_rw (fuel : nat) (e : Env.t) : option R :=
  let f := Env.frame e in
  r <- nth_error (Frame.robots_blue f) 0 ;;
  let theta := deg2rad (Robot.theta r) in
  let Xr := Robot.x r in
  let Yr := Robot.y r in
  let Xb := Ball.x (Frame.ball f) in
  let Yb := Ball.y (Frame.ball f) in
  normalized_value <- alignment fuel Xr Yr theta Xb Yb ;;
  Some (if Rgtb normalized_value 0.9 then 1 else normalized_value).

(** [__move_to_ball_rw]: both distances are taken to the position the
    ball had in the previous frame. *)
Definition move_to_ball_rw (e : Env.t) : option R :=
  last_frame <- Env.last_frame e ;;
  let last_ball := Frame.ball last_frame in
  last_robot <- nth_error (Frame.robots_blue last_frame) 0 ;;
  let last_dist :=
    norm2 (Robot.x last_robot - Ball.x last_ball)
          (Robot.y last_robot - Ball.y last_ball) in
  robot <- nth_error (Frame.robots_blue (Env.frame e)) 0 ;;
  let dist :=
    norm2 (Robot.x robot - Ball.x last_ball)
          (Robot.y robot - Ball.y last_ball) in
  let move_to_ball_rw_ := last_dist - dist in
  let move_to_ball_rw_ := move_to_ball_rw_ * (1 / 0.05) in
  Some (clip move_to_ball_rw_ (-1) 1).

(** [__robot_orientation_rw]: the alignment of blue robot 0 with the
    centre of the attacking goal, less the value kept from the call
    before.  The attribute [last_ori_value] is passed in and handed back
    beside the result. *)
Definition robot_orientation_rw (fuel : nat) (e : Env.t) (last_ori_value : R)
    : option (R * R) :=
  r <- nth_error (Frame.robots_blue (Env.frame e)) 0 ;;
  let theta := deg2rad (Robot.theta r) in
  let Xr := Robot.x r in
  let Yr := Robot.y r in
  let Xg := Field.length (Env.field e) / 2 in
  let Yg := 0 in
  normalized_value <- alignment fuel Xr Yr theta Xg Yg ;;
  Some (normalized_value - last_ori_value, normalized_value).

(** ** The tests of the termination chain, as propositions *)

Definition left_out (limit : R) (robot : Robot.t) (ball : Ball.t) : Prop :=
  Robot.x robot < limit \/ Ball.x ball < limit.

Definition robot_out (fld : Field.t) (robot : Robot.t) : Prop :=
  Rabs (Robot.y robot) > Field.width fld / 2
  \/ Rabs (Robot.x robot) > Field.length fld / 2.

Definition ball_out (fld : Field.t) (ball : Ball.t) : Prop :=
  Rabs (Ball.y ball) > Field.width fld / 2
  \/ Ball.x ball < - (Field.length fld / 2)
  \/ Ball.x ball > Field.length fld / 2.

(** A generator whose unit draws all lie in [0, 1]. *)
Definition unit_draws (g : Rng.t) : Prop :=
  forall n, 0 <= Rng.stream g n <= 1.

(** A position inside the field, at least [margin] from its border. *)
Definition within (fld : Field.t) (margin : R) (p : R * R) : Prop :=
  Rabs (fst p) <= Field.length fld / 2 - margin
  /\ Rabs (snd p) <= Field.width fld / 2 - margin.

(** ** A command within the limits *)

(** The dribbler engaged, the linear speed at most [max_v], the kick
    either off or at [kick_speed_x]. *)
Definition command_ok (c : Robot.t) : Prop :=
  Robot.dribbler c = true /\
  norm2 (Robot.v_x c) (Robot.v_y c) <= max_v /\
  (Robot.kick_v_x c = 0 \/ Robot.kick_v_x c = kick_speed_x).

(** ** Sample data *)

Module Examples.

(** The division B field: 9 by 6, penalty area 1 by 2, goal width 1. *)
Definition field_b : Field.t := Field.mk 9 6 1 2 1.

Definition env_of (f : Frame.t) (last : option Frame.t) (active : nat)
    (limit : option R) (cmds : option (list Robot.t)) : Env.t :=
  Env.mk field_b f last active (-1) (-1) limit 0 cmds Totals.zero.

Definition yellows_far : list Robot.t :=
  [Robot.placed 3 1 0; Robot.placed 3 (-1) 0; Robot.placed 4 2 0].

Definition blue_at (px : R) : list Robot.t :=
  [Robot.placed px 0 0; Robot.placed 1 2 0; Robot.placed 1 (-2) 0].

(** One tick of a retreat: robot 0 goes from x = 0.05 to x = -0.01, the
    ball stays at (1, 0). *)
Definition frame_retreat_before : Frame.t :=
  Frame.mk (Ball.mk 1 0 0 0) (blue_at 0.05) yellows_far.

Definition frame_retreat_after : Frame.t :=
  Frame.mk (Ball.mk 1 0 0 0) (blue_at (-0.01)) yellows_far.

(** The same tick with a shot on its way: the ball goes from x = 4.45
    to x = 4.55, across the attacking boundary, inside the goal mouth. *)
Definition frame_shot_before : Frame.t :=
  Frame.mk (Ball.mk 4.45 0 0 0) (blue_at 0.05) yellows_far.

Definition frame_shot_after : Frame.t :=
  Frame.mk (Ball.mk 4.55 0 0 0) (blue_at (-0.01)) yellows_far.

(** Robot 0 has just gone behind a [done_limit] of 0 while the ball
    enters the attacking goal. *)
Definition env_left_and_goal : Env.t :=
  env_of frame_shot_after (Some frame_shot_before) 0 (Some 0) None.

(** Robot 0 has just gone behind the limit, nothing else is amiss. *)
Definition env_left_only : Env.t :=
  env_of frame_retreat_after (Some frame_retreat_before) 0 (Some 0) None.

(** The ball enters the attacking goal, the limit is far behind. *)
Definition env_goal : Env.t :=
  env_of frame_shot_after (Some frame_shot_before) 0 (Some (-2)) None.

(** Six robots on the x axis, the ball at (1, 0); robot 0 drives its
    wheels at full speed. *)
Definition on_axis (px : R) : Robot.t := Robot.placed px 0 0.

Definition spinning (px : R) : Robot.t :=
  Robot.mk false 0 px 0 0 0 0 0 0 false 160 160 160 160.

Definition frame_axis : Frame.t :=
  Frame.mk (Ball.mk 1 0 0 0)
    [spinning 0; on_axis (-1); on_axis (-2)]
    [on_axis 3; on_axis 3.5; on_axis 4].

Definition env_axis : Env.t :=
  env_of frame_axis None 0 (Some (-0.5)) None.

(** A simulator that hands back the frame it had. *)
Definition rsim_same (f : Frame.t) (_ : list Robot.t) : Frame.t := f.

Definition norm_id (v : R) : R := v.

(** Generators whose every unit draw is 1/2. *)
Definition halves : Rng.t := Rng.mk (fun _ => 0.5) 0.
Definition rand_halves : Rand.t := Rand.mk halves halves.

Definition action_idle : Action.t := Action.mk 0 0 0 (-1).

(** The ball at the origin.  Yellow robot 1 is the nearest robot, 0.12
    from the ball, heading along +x with the ball behind it; yellow
    robot 0 stands at (-1, 0) and heads straight for the ball.  The
    nearest blue robot is robot 0, at distance 1. *)
Definition frame_yellow_near : Frame.t :=
  Frame.mk (Ball.mk 0 0 0 0)
    [on_axis 1; on_axis 2; on_axis 3]
    [on_axis (-1); on_axis 0.12; on_axis (-2)].

(** A command set with every dribbler engaged, as [_get_commands]
    builds them. *)
Definition dribbling : list Robot.t :=
  [Robot.command false 0 0 0 0 0 true; Robot.command false 1 0 0 0 0 true;
   Robot.command false 2 0 0 0 0 true; Robot.command true 0 0 0 0 0 true;
   Robot.command true 1 0 0 0 0 true; Robot.command true 2 0 0 0 0 true].

Definition env_yellow_near : Env.t :=
  env_of frame_yellow_near None 0 (Some (-5)) (Some dribbling).

(** The same frame before any command set exists. *)
Definition env_first_tick : Env.t :=
  env_of frame_yellow_near None 0 (Some (-5)) None.

(** Blue robot 1 is the one nearest the ball, so the observation of
    this frame leaves 1 as the active robot. *)
Definition frame_blue1_near : Frame.t :=
  Frame.mk (Ball.mk 0 0 0 0)
    [on_axis 2; on_axis 1; on_axis 3]
    [on_axis (-3); on_axis (-4); on_axis (-2)].

Definition env_active_1 : Env.t :=
  env_of frame_blue1_near None 1 (Some (-5)) None.

(** Two policy actions that differ in the kick component only. *)
Definition action_kick : Action.t := Action.mk 0 0 0 1.
Definition action_no_kick : Action.t := Action.mk 0 0 0 (-1).

(** An environment as [__init__] leaves it, and a generator whose draws
    put the ball at the origin, robot 0 at bearing 0 and the other five
    robots on the x axis, more than a unit apart. *)
Definition env_fresh : Env.t :=
  env_of (Frame.mk (Ball.mk 0 0 0 0) [] []) None 0 None None.

Definition draws : Rng.t :=
  Rng.mk (fun n => nth n [0.5; 0.5; 0;
                          0.75; 0.5; 0;  0.25; 0.5; 0;
                          0.625; 0.5; 0;  0.375; 0.5; 0;  0.875; 0.5; 0] 0)
         0.

(** Robot 0 just past the attacking boundary, the ball in the goal
    mouth beside it. *)
Definition env_robot_out : Env.t :=
  env_of (Frame.mk (Ball.mk 4.55 0 0 0) (blue_at 4.51) yellows_far)
         (Some frame_shot_before) 0 (Some (-2)) None.


(** The frame of [env_axis] with the same frame as the previous one. *)
Definition env_axis_running : Env.t :=
  env_of frame_axis (Some frame_axis) 0 (Some (-0.5)) None.

(** Blue robot 0 at the origin heading straight for the ball at
    (1, 0); in the previous frame it stood at (-0.05, 0) and the ball at
    (0.9, 0). *)
Definition frame_facing_before : Frame.t :=
  Frame.mk (Ball.mk 0.9 0 0 0)
    [on_axis (-0.05); on_axis (-1); on_axis (-2)]
    [on_axis 3; on_axis 3.5; on_axis 4].

Definition frame_facing : Frame.t :=
  Frame.mk (Ball.mk 1 0 0 0)
    [on_axis 0; on_axis (-1); on_axis (-2)]
    [on_axis 3; on_axis 3.5; on_axis 4].

Definition env_facing : Env.t :=
  env_of frame_facing (Some frame_facing_before) 0 (Some (-0.5)) None.

End Examples.

(** * Properties *)

Lemma Rltb_true a b : a < b -> Rltb a b = true.
Proof. unfold Rltb; destruct (Rlt_dec a b); tauto. Qed.

Lemma Rltb_false a b : ~ a < b -> Rltb a b = false.
Proof. unfold Rltb; destruct (Rlt_dec a b); tauto. Qed.

Lemma Rleb_true a b : a <= b -> Rleb a b = true.
Proof. unfold Rleb; destruct (Rle_dec a b); tauto. Qed.

Lemma Rleb_false a b : ~ a <= b -> Rleb a b = false.
Proof. unfold Rleb; destruct (Rle_dec a b); tauto. Qed.

Lemma Rltb_spec a b : reflect (a < b) (Rltb a b).
Proof. unfold Rltb; destruct (Rlt_dec a b); constructor; assumption. Qed.

Lemma Rleb_spec a b : reflect (a <= b) (Rleb a b).
Proof. unfold Rleb; destruct (Rle_dec a b); constructor; assumption. Qed.

Lemma checked_div_some a b : b <> 0 -> checked_div a b = Some (a / b).
Proof. unfold checked_div; destruct (Req_dec_T b 0); tauto. Qed.

Lemma norm2_nonneg a b : 0 <= norm2 a b.
Proof. apply sqrt_pos. Qed.

Lemma norm2_sqr a b : norm2 a b * norm2 a b = a * a + b * b.
Proof. unfold norm2; apply sqrt_sqrt; nra. Qed.

Lemma norm2_scale a b c : 0 <= c -> norm2 (a * c) (b * c) = c * norm2 a b.
Proof.
  intros Hc. unfold norm2.
  replace (a * c * (a * c) + b * c * (b * c)) with (c * c * (a * a + b * b))
    by ring.
  rewrite sqrt_mult by nra.
  now rewrite sqrt_square.
Qed.

Lemma norm2_zero a b : norm2 a b = 0 -> a = 0 /\ b = 0.
Proof.
  intros H. pose proof (norm2_sqr a b) as Hs. rewrite H in Hs. nra.
Qed.

(** ** Action decoder *)

Lemma clip_factor_defined n :
  0 <= n -> exists c, clip_factor n = Some c /\ 0 < c <= 1 /\ c * n <= max_v.
Proof.
  intros Hn. unfold clip_factor, max_v.
  destruct (Rltb_spec n 2.5) as [Hlt | Hge].
  - exists 1. repeat split; lra.
  - assert (Hpos : 0 < n) by lra.
    rewrite checked_div_some by lra.
    exists (2.5 / n). split; [reflexivity|].
    assert (Hinv : 0 < / n) by (apply Rinv_0_lt_compat; exact Hpos).
    assert (Hone : / n * n = 1) by (apply Rinv_l; lra).
    unfold Rdiv. repeat split; nra.
Qed.

Lemma convert_actions_clamped action angle :
  exists c,
    clip_factor (norm2 (fst (to_local (Action.a0 action * max_v)
                                      (Action.a1 action * max_v) angle))
                       (snd (to_local (Action.a0 action * max_v)
                                      (Action.a1 action * max_v) angle)))
      = Some c /\
    convert_actions action angle =
      Some (fst (to_local (Action.a0 action * max_v)
                          (Action.a1 action * max_v) angle) * c,
            snd (to_local (Action.a0 action * max_v)
                          (Action.a1 action * max_v) angle) * c,
            Action.a2 action * max_w) /\
    0 < c <= 1 /\
    norm2 (fst (to_local (Action.a0 action * max_v)
                         (Action.a1 action * max_v) angle) * c)
          (snd (to_local (Action.a0 action * max_v)
                         (Action.a1 action * max_v) angle) * c) <= max_v.
Proof.
  unfold convert_actions.
  destruct (to_local _ _ angle) as [lx ly]; cbn [fst snd].
  destruct (clip_factor_defined (norm2 lx ly) (norm2_nonneg lx ly))
    as (c & Hc & Hrange & Hbound).
  exists c. rewrite Hc. cbn [bind].
  repeat split; try tauto.
  rewrite norm2_scale by lra. exact Hbound.
Qed.

(** C7.  Speed clamp: for every action with its four components in
    [-1,1] and every heading, [convert_actions] returns a local velocity
    whose Euclidean norm is at most [max_v] = 2.5, and that velocity is
    the rotated, denormalized one multiplied as a whole by a single factor
    [c] with [0 < c <= 1]: both axes are scaled alike, so the direction is
    kept. *)
Theorem convert_actions_speed_clamp (action : Action.t) (angle : R) :
  Action.in_box action ->
  exists v_x v_y v_theta c,
    convert_actions action angle = Some (v_x, v_y, v_theta) /\
    norm2 v_x v_y <= max_v /\ max_v = 2.5 /\
    0 < c <= 1 /\
    v_x = fst (to_local (Action.a0 action * max_v)
                        (Action.a1 action * max_v) angle) * c /\
    v_y = snd (to_local (Action.a0 action * max_v)
                        (Action.a1 action * max_v) angle) * c.
Proof.
  intros _.
  destruct (convert_actions_clamped action angle)
    as (c & _ & Hrun & Hrange & Hbound).
  eexists _, _, _, c. split; [exact Hrun|].
  split; [exact Hbound|]. split; [reflexivity|]. tauto.
Qed.

Lemma convert_actions_speed_clamp_witness :
  Action.in_box (Action.mk 1 1 0 0) /\
  exists v_x v_y v_theta c,
    convert_actions (Action.mk 1 1 0 0) 0 = Some (v_x, v_y, v_theta) /\
    norm2 v_x v_y <= max_v /\ max_v = 2.5 /\
    0 < c <= 1 /\
    v_x = fst (to_local (1 * max_v) (1 * max_v) 0) * c /\
    v_y = snd (to_local (1 * max_v) (1 * max_v) 0) * c.
Proof.
  split.
  - unfold Action.in_box; simpl; lra.
  - apply (convert_actions_speed_clamp (Action.mk 1 1 0 0) 0).
    unfold Action.in_box; simpl; lra.
Defined.

(** C8.  Division-by-zero safety: [convert_actions] returns a result for
    every action and heading.  The quotient [max_v / v_norm] is reached
    only when the test [v_norm < max_v] fails, and then the divisor is not
    zero; when the rotated, denormalized velocity has norm zero the factor
    is 1 without any division, and the zero vector comes back as it is. *)
Theorem convert_actions_no_zero_division (action : Action.t) (angle : R) :
  let v := to_local (Action.a0 action * max_v)
                    (Action.a1 action * max_v) angle in
  let v_norm := norm2 (fst v) (snd v) in
  (exists v_x v_y v_theta,
     convert_actions action angle = Some (v_x, v_y, v_theta)) /\
  (Rltb v_norm max_v = false ->
     v_norm <> 0 /\ clip_factor v_norm = checked_div max_v v_norm /\
     checked_div max_v v_norm = Some (max_v / v_norm)) /\
  (v_norm = 0 ->
     clip_factor v_norm = Some 1 /\
     fst v = 0 /\ snd v = 0 /\
     convert_actions action angle = Some (0, 0, Action.a2 action * max_w)).
Proof.
  intros v v_norm.
  destruct (convert_actions_clamped action angle)
    as (c & Hc & Hrun & _ & _).
  fold v in Hc, Hrun. fold v_norm in Hc.
  split; [eauto|]. split.
  - intros Hge.
    assert (Hnz : v_norm <> 0).
    { destruct (Rltb_spec v_norm max_v) as [|Hn]; [discriminate|].
      unfold max_v in Hn. lra. }
    split; [exact Hnz|]. split.
    + unfold clip_factor. now rewrite Hge.
    + now apply checked_div_some.
  - intros Hz.
    assert (Hc1 : clip_factor v_norm = Some 1).
    { unfold clip_factor. rewrite Rltb_true; [reflexivity|].
      rewrite Hz; unfold max_v; lra. }
    destruct (norm2_zero _ _ Hz) as [Hx Hy].
    repeat split; try assumption.
    rewrite Hrun. rewrite Hc1 in Hc. injection Hc as <-.
    rewrite Hx, Hy. do 2 f_equal. f_equal; ring.
Qed.

(** ** Gradient terms *)

(** Case analysis on every [Rmin] and [Rmax] of the goal, innermost
    first, then linear arithmetic. *)
Ltac minmax :=
  unfold Rmin, Rmax;
  repeat match goal with
         | |- context [Rle_dec ?a ?b] =>
             lazymatch a with
             | context [Rle_dec] => fail
             | _ => lazymatch b with
                    | context [Rle_dec] => fail
                    | _ => destruct (Rle_dec a b)
                    end
             end
         end;
  lra.

Lemma norm2_spec_distance px py qx qy :
  norm2 (qx - px) (qy - py) = spec_distance px py qx qy.
Proof. unfold norm2, spec_distance. f_equal. ring. Qed.

Lemma clip_spec_progress previous current :
  clip ((previous - current) * (1 / 0.1)) (-1) 1
  = spec_progress previous current.
Proof.
  replace (1 / 0.1) with 10 by lra.
  rewrite (Rmult_comm (previous - current) 10).
  unfold clip, spec_progress. minmax.
Qed.

Lemma spec_progress_range previous current :
  -1 <= spec_progress previous current <= 1.
Proof.
  unfold spec_progress. minmax.
Qed.

Lemma spec_progress_still d : spec_progress d d = 0.
Proof.
  unfold spec_progress. minmax.
Qed.

Lemma goal_dist_spec fld px py :
  goal_dist fld px py = spec_goal_min_dist fld px py.
Proof.
  unfold goal_dist, spec_goal_min_dist, spec_goal_center_dist, min3.
  cbn [fst snd]. rewrite !norm2_spec_distance.
  replace (- Field.goal_width fld / 2) with (- (Field.goal_width fld / 2))
    by lra.
  minmax.
Qed.

(** C9.  Gradient terms: with a previous frame at hand, the ball term is
    the previous minus the current distance of the ball to the centre of
    the attacking goal, times 10, clamped to [-1,1]; the robot term is the
    same with the least distance of the active robot to the goal centre
    and the two posts.  Both lie in [-1,1], and each is 0 when the ball
    (the active robot) stands where it stood in the previous frame. *)
Theorem gradient_terms (e : Env.t) (lf : Frame.t) (last_robot robot : Robot.t) :
  Env.last_frame e = Some lf ->
  nth_error (Frame.robots_blue lf) (Env.active_robot_idx e)
    = Some last_robot ->
  nth_error (Frame.robots_blue (Env.frame e)) (Env.active_robot_idx e)
    = Some robot ->
  let fld := Env.field e in
  let last_ball := Frame.ball lf in
  let ball := Frame.ball (Env.frame e) in
  exists b r,
    ball_grad_rw e = Some b /\ robot_grad_rw e = Some r /\
    b = spec_progress
          (spec_goal_center_dist fld (Ball.x last_ball) (Ball.y last_ball))
          (spec_goal_center_dist fld (Ball.x ball) (Ball.y ball)) /\
    r = spec_progress
          (spec_goal_min_dist fld (Robot.x last_robot) (Robot.y last_robot))
          (spec_goal_min_dist fld (Robot.x robot) (Robot.y robot)) /\
    -1 <= b <= 1 /\ -1 <= r <= 1 /\
    (Ball.x last_ball = Ball.x ball -> Ball.y last_ball = Ball.y ball ->
     b = 0) /\
    (Robot.x last_robot = Robot.x robot ->
     Robot.y last_robot = Robot.y robot -> r = 0).
Proof.
  intros Hlf Hlast Hcur fld last_ball ball.
  unfold ball_grad_rw, robot_grad_rw.
  rewrite Hlf. cbn [bind]. rewrite Hlast, Hcur. cbn [bind fst snd].
  rewrite !norm2_spec_distance, !goal_dist_spec, !clip_spec_progress.
  eexists _, _. split; [reflexivity|]. split; [reflexivity|].
  split; [reflexivity|]. split; [reflexivity|].
  split; [apply spec_progress_range|]. split; [apply spec_progress_range|].
  split.
  - intros Hx Hy. fold last_ball ball. rewrite Hx, Hy.
    apply spec_progress_still.
  - intros Hx Hy. rewrite Hx, Hy. apply spec_progress_still.
Qed.

(** ** Reward and termination engine *)

(** Evaluation of the tests on given numbers. *)
Ltac eval_abs :=
  repeat match goal with
         | |- context [Rabs ?a] =>
             first [ rewrite (Rabs_pos_eq a) by lra
                   | rewrite (Rabs_left a) by lra ]
         end.

Ltac eval_cmp :=
  unfold Rgtb;
  repeat match goal with
         | |- context [Rltb ?a ?b] =>
             first [ rewrite (Rltb_true a b) by lra
                   | rewrite (Rltb_false a b) by lra ]
         | |- context [Rleb ?a ?b] =>
             first [ rewrite (Rleb_true a b) by lra
                   | rewrite (Rleb_false a b) by lra ]
         end.

(** C1.  The engine at two ticks where robot 0 has just gone behind
    [done_limit].  In both the episode ends and [done_left_out] is 1, and
    in both the chain that follows the [done_limit] test replaces the
    reward of -10.  With the ball past the attacking boundary inside the
    goal mouth the goal branch sets the reward to 50 and [goal] to 1.
    With nothing else amiss the last branch sets the reward to the shaped
    sum, which lies between -1.2 and 1.2 when the wheels are at rest. *)
Theorem left_out_reward_overridden :
  calculate_reward_and_done Examples.env_left_and_goal
  = Some (50, true,
          Env.with_reward_shaping_total
            (Totals.add_goal 1 (Totals.add_done_left_out 1 Totals.zero))
            Examples.env_left_and_goal) /\
  exists reward e',
    calculate_reward_and_done Examples.env_left_only
      = Some (reward, true, e') /\
    -1.2 <= reward <= 1.2 /\
    Totals.done_left_out (Env.reward_shaping_total e') = 1%Z.
Proof.
  split.
  - unfold calculate_reward_and_done.
    simpl. eval_abs. eval_cmp. simpl. reflexivity.
  - unfold calculate_reward_and_done, shaped_reward, ball_grad_rw,
      robot_grad_rw, energy_pen.
    simpl. eval_abs. eval_cmp. simpl.
    eexists _, _. split; [reflexivity|]. split; [|reflexivity].
    rewrite !clip_spec_progress.
    match goal with
    | |- context [spec_progress ?a ?b + 0.2 * spec_progress ?c ?d] =>
        pose proof (spec_progress_range a b);
        pose proof (spec_progress_range c d)
    end.
    lra.
Qed.

(** C5.  Goal rule: at a tick where no earlier rule fires (robot 0 and
    the ball are not behind [done_limit], robot 0 is inside the field, the
    ball is inside the width and not past the defended boundary) and the
    ball's x exceeds half the field length, the episode ends; with
    |ball.y| below half the goal width the reward is 50 and [goal] goes
    from 0 to 1, otherwise the reward is 0, [done_ball_out] goes from 0
    to 1 and [goal] stays 0. *)
Theorem goal_rule (e : Env.t) (robot : Robot.t) (limit : R) :
  let fld := Env.field e in
  let ball := Frame.ball (Env.frame e) in
  nth_error (Frame.robots_blue (Env.frame e)) 0 = Some robot ->
  Env.done_limit e = Some limit ->
  limit <= Robot.x robot /\ limit <= Ball.x ball ->
  Rabs (Robot.y robot) <= Field.width fld / 2
    /\ Rabs (Robot.x robot) <= Field.length fld / 2 ->
  Rabs (Ball.y ball) <= Field.width fld / 2 ->
  - (Field.length fld / 2) <= Ball.x ball ->
  Ball.x ball > Field.length fld / 2 ->
  exists reward totals,
    calculate_reward_and_done e
      = Some (reward, true, Env.with_reward_shaping_total totals e) /\
    (Rabs (Ball.y ball) < Field.goal_width fld / 2 ->
       reward = 50 /\ totals = Totals.add_goal 1 Totals.zero /\
       Totals.goal totals = 1%Z) /\
    (~ Rabs (Ball.y ball) < Field.goal_width fld / 2 ->
       reward = 0 /\ totals = Totals.add_done_ball_out 1 Totals.zero /\
       Totals.done_ball_out totals = 1%Z /\ Totals.goal totals = 0%Z).
Proof.
  intros fld ball Hrobot Hlimit [Hl1 Hl2] [Hr1 Hr2] Hb1 Hb2 Hb3.
  unfold calculate_reward_and_done.
  rewrite Hrobot, Hlimit. cbn [bind].
  fold fld. fold ball. eval_cmp. cbn [orb].
  destruct (Rltb_spec (Rabs (Ball.y ball)) (Field.goal_width fld / 2))
    as [Hin | Hout]; cbn [bind].
  - eexists _, _. split; [reflexivity|]. split; [|tauto].
    intros _. repeat split.
  - eexists _, _. split; [reflexivity|]. split; [tauto|].
    intros _. repeat split.
Qed.

Lemma goal_rule_witness :
  exists reward totals,
    calculate_reward_and_done Examples.env_goal
      = Some (reward, true,
              Env.with_reward_shaping_total totals Examples.env_goal) /\
    (Rabs 0 < 1 / 2 ->
       reward = 50 /\ totals = Totals.add_goal 1 Totals.zero /\
       Totals.goal totals = 1%Z) /\
    (~ Rabs 0 < 1 / 2 ->
       reward = 0 /\ totals = Totals.add_done_ball_out 1 Totals.zero /\
       Totals.done_ball_out totals = 1%Z /\ Totals.goal totals = 0%Z).
Proof.
  apply (goal_rule Examples.env_goal (Robot.placed (-0.01) 0 0) (-2)).
  - reflexivity.
  - reflexivity.
  - simpl; lra.
  - simpl; eval_abs; lra.
  - simpl; eval_abs; lra.
  - simpl; lra.
  - simpl; lra.
Defined.

(** ** Commands *)

Ltac run_convert :=
  repeat match goal with
         | |- context [convert_actions ?a ?g] =>
             let c := fresh "c" in
             let H := fresh "H" in
             destruct (convert_actions_clamped a g) as (c & _ & H & _);
             rewrite H; clear H; cbn [bind]
         end.

Lemma blue_command_defined e actions i rand r :
  nth_error (Frame.robots_blue (Env.frame e)) i = Some r ->
  exists cmd rand',
    blue_command e actions i rand = Some (cmd, rand') /\
    Robot.dribbler cmd = true /\
    Robot.yellow cmd = false /\
    Robot.id cmd = (if (i =? Env.active_robot_idx e)%nat then 0%nat else i) /\
    Robot.kick_v_x cmd = blue_kick actions rand.
Proof.
  intros Hr. unfold blue_command, blue_kick.
  destruct (Nat.eqb_spec i (Env.active_robot_idx e)) as [<- | Hne];
    cbn [negb]; rewrite Hr; cbn -[convert_actions]; run_convert;
    eexists _, _; (split; [reflexivity|]); repeat split.
Qed.

Lemma yellow_command_defined e i rand r :
  nth_error (Frame.robots_yellow (Env.frame e)) i = Some r ->
  exists cmd rand',
    yellow_command e i rand = Some (cmd, rand') /\
    Robot.dribbler cmd = true /\
    Robot.yellow cmd = true /\
    Robot.id cmd = i.
Proof.
  intros Hr. unfold yellow_command.
  rewrite Hr; cbn -[convert_actions]; run_convert.
  eexists _, _; (split; [reflexivity|]); repeat split.
Qed.

Lemma three_robots (rs : list Robot.t) :
  List.length rs = 3%nat -> exists r0 r1 r2, rs = [r0; r1; r2].
Proof.
  destruct rs as [|r0 [|r1 [|r2 [|r3 rs]]]]; try discriminate.
  intros _. now exists r0, r1, r2.
Qed.

(** What [_get_commands] returns on a frame with the full rosters: six
    commands, the blue ones first; the identity each one carries; the
    kick of the first. *)
Lemma get_commands_shape e actions rand :
  full_rosters (Env.frame e) ->
  exists c0 c1 c2 c3 c4 c5 rand',
    get_commands e actions rand
      = Some ([c0; c1; c2; c3; c4; c5],
              Env.with_commands (Some [c0; c1; c2; c3; c4; c5]) e, rand') /\
    Forall (fun c => Robot.dribbler c = true) [c0; c1; c2; c3; c4; c5] /\
    map Robot.id [c0; c1; c2]
      = map (fun i => if (i =? Env.active_robot_idx e)%nat then 0%nat else i)
            [0; 1; 2]%nat /\
    map Robot.id [c3; c4; c5] = [0; 1; 2]%nat /\
    map Robot.yellow [c0; c1; c2; c3; c4; c5]
      = [false; false; false; true; true; true] /\
    Robot.kick_v_x c0 = blue_kick actions rand.
Proof.
  intros [Hb Hy].
  destruct (three_robots _ Hb) as (b0 & b1 & b2 & Eb).
  destruct (three_robots _ Hy) as (y0 & y1 & y2 & Ey).
  unfold get_commands. cbn [seq n_robots_blue n_robots_yellow for_commands].
  destruct (blue_command_defined e actions 0 rand b0)
    as (c0 & g0 & -> & D0 & Y0 & I0 & K0); [rewrite Eb; reflexivity|].
  cbn [bind].
  destruct (blue_command_defined e actions 1 g0 b1)
    as (c1 & g1 & -> & D1 & Y1 & I1 & _); [rewrite Eb; reflexivity|].
  cbn [bind].
  destruct (blue_command_defined e actions 2 g1 b2)
    as (c2 & g2 & -> & D2 & Y2 & I2 & _); [rewrite Eb; reflexivity|].
  cbn [bind].
  destruct (yellow_command_defined e 0 g2 y0)
    as (c3 & g3 & -> & D3 & Y3 & I3); [rewrite Ey; reflexivity|].
  cbn [bind].
  destruct (yellow_command_defined e 1 g3 y1)
    as (c4 & g4 & -> & D4 & Y4 & I4); [rewrite Ey; reflexivity|].
  cbn [bind].
  destruct (yellow_command_defined e 2 g4 y2)
    as (c5 & g5 & -> & D5 & Y5 & I5); [rewrite Ey; reflexivity|].
  cbn [bind app].
  exists c0, c1, c2, c3, c4, c5, g5.
  split; [reflexivity|]. split; [repeat constructor; assumption|].
  cbn [map]. rewrite I0, I1, I2, I3, I4, I5, Y0, Y1, Y2, Y3, Y4, Y5.
  repeat split. exact K0.
Qed.

Lemma get_commands_defined e actions rand :
  full_rosters (Env.frame e) ->
  exists cmds rand',
    get_commands e actions rand
      = Some (cmds, Env.with_commands (Some cmds) e, rand') /\
    List.length cmds = 6%nat /\
    Forall (fun c => Robot.dribbler c = true) cmds.
Proof.
  intros Hfull.
  destruct (get_commands_shape e actions rand Hfull)
    as (c0 & c1 & c2 & c3 & c4 & c5 & rand' & Hrun & Hdrib & _).
  eexists _, _. split; [exact Hrun|]. split; [reflexivity|exact Hdrib].
Qed.

(** ** Diagnostics *)

Lemma get_commands_ignores_totals t e actions rand :
  get_commands (Env.with_reward_shaping_total t e) actions rand
  = match get_commands e actions rand with
    | Some (cmds, e', rand') =>
        Some (cmds, Env.with_reward_shaping_total t e', rand')
    | None => None
    end.
Proof.
  destruct e. unfold get_commands.
  change (blue_command (Env.with_reward_shaping_total t ?e))
    with (blue_command e).
  change (yellow_command (Env.with_reward_shaping_total t ?e))
    with (yellow_command e).
  destruct (for_commands (blue_command _ actions) _ rand) as [[blues g]|];
    [|reflexivity].
  cbn [bind].
  destruct (for_commands (yellow_command _) _ g) as [[yellows g']|];
    reflexivity.
Qed.

Lemma calculate_ignores_totals t e :
  calculate_reward_and_done (Env.with_reward_shaping_total t e)
  = calculate_reward_and_done e.
Proof. destruct e. reflexivity. Qed.


Lemma possession_update_keeps fuel cmds nb nbd ny nyd e e' :
  possession_update fuel cmds nb nbd ny nyd e = Some e' ->
  Env.reward_shaping_total e' = Env.reward_shaping_total e /\
  Env.field e' = Env.field e /\ Env.frame e' = Env.frame e /\
  Env.done_limit e' = Env.done_limit e /\
  Env.last_frame e' = Env.last_frame e.
Proof.
  unfold possession_update.
  repeat match goal with
         | |- context [if ?b then _ else _] => destruct b
         | |- context [bind ?m _] => destruct m; cbn [bind]
         end;
    intros H; try discriminate; injection H as <-; repeat split.
Qed.

Lemma shaped_reward_sum e reward done done' totals' :
  shaped_reward e Totals.zero 0 done = Some (reward, done', totals') ->
  reward = Totals.rw_ball_grad totals' + Totals.rw_robot_grad totals'
           + Totals.rw_energy totals'.
Proof.
  unfold shaped_reward.
  destruct (Env.last_frame e).
  - destruct (ball_grad_rw e); cbn [bind]; [|discriminate].
    destruct (robot_grad_rw e); cbn [bind]; [|discriminate].
    destruct (energy_pen e); cbn [bind]; [|discriminate].
    intros H; injection H as <- _ <-. cbn. lra.
  - intros H; injection H as <- _ <-. cbn. lra.
Qed.

Lemma shaped_reward_done e totals reward done reward' done' totals' :
  shaped_reward e totals reward done = Some (reward', done', totals') ->
  done' = done.
Proof.
  unfold shaped_reward.
  destruct (Env.last_frame e).
  - destruct (ball_grad_rw e); cbn [bind]; [|discriminate].
    destruct (robot_grad_rw e); cbn [bind]; [|discriminate].
    destruct (energy_pen e); cbn [bind]; [|discriminate].
    intros H; now injection H as _ <- _.
  - intros H; now injection H as _ <- _.
Qed.

Lemma calculate_in_play e reward e' :
  calculate_reward_and_done e = Some (reward, false, e') ->
  reward = Totals.rw_ball_grad (Env.reward_shaping_total e')
           + Totals.rw_robot_grad (Env.reward_shaping_total e')
           + Totals.rw_energy (Env.reward_shaping_total e').
Proof.
  unfold calculate_reward_and_done.
  destruct (nth_error _ 0) as [robot|]; cbn [bind]; [|discriminate].
  destruct (Env.done_limit e) as [limit|]; cbn [bind]; [|discriminate].
  destruct (_ || _); cbn [bind];
    repeat match goal with
           | |- context [if ?b then _ else _] => destruct b; cbn [bind]
           end; try discriminate;
    destruct (shaped_reward _ _ _ _) as [[[r d] t]|] eqn:Hs; cbn [bind];
      try discriminate;
    intros H; injection H as <- -> <-;
    pose proof (shaped_reward_done _ _ _ _ _ _ _ Hs) as Hd;
    try discriminate.
  cbn. now apply shaped_reward_sum in Hs.
Qed.

Lemma frame_to_observations_keeps norm_pos norm_v norm_w fuel e obs e' :
  frame_to_observations norm_pos norm_v norm_w fuel e = Some (obs, e') ->
  Env.reward_shaping_total e' = Env.reward_shaping_total e.
Proof.
  unfold frame_to_observations.
  destruct (take_robots _ _); cbn [bind]; [|discriminate].
  destruct (take_robots _ _); cbn [bind]; [|discriminate].
  destruct (get_nearest_robot_idx _ _ _ blue) as [[nb nbd]|]; cbn [bind];
    [|discriminate].
  destruct (get_nearest_robot_idx _ _ _ yellow) as [[ny nyd]|]; cbn [bind];
    [|discriminate].
  cbn [Env.commands Env.with_possession_robot_idx Env.with_active_robot_idx
       Env.with_last_possession].
  destruct (Env.commands e) as [cmds|].
  - destruct (possession_update _ _ _ _ _ _ _) as [e1|] eqn:Hp; cbn [bind];
      [|discriminate].
    intros H; injection H as _ <-.
    apply possession_update_keeps in Hp. destruct Hp as [-> _]. reflexivity.
  - cbn [bind]. intros H; injection H as _ <-. reflexivity.
Qed.

Lemma norm2_axis a b : b = 0 -> norm2 a b = Rabs a.
Proof.
  intros ->. unfold norm2.
  replace (a * a + 0 * 0) with (a * a) by ring.
  rewrite <- (sqrt_Rsqr_abs a). reflexivity.
Qed.

Ltac eval_norm :=
  unfold robot_dist;
  repeat match goal with
         | |- context [norm2 ?a ?b] => rewrite (norm2_axis a b) by lra
         end.

Ltac eval_tests := repeat (progress (eval_norm; eval_abs; eval_cmp; cbn)).

Lemma axis_engine (e : Env.t) :
  Env.field e = Examples.field_b ->
  Env.frame e = Examples.frame_axis ->
  Env.last_frame e = Some Examples.frame_axis ->
  Env.done_limit e = Some (-0.5) ->
  Env.active_robot_idx e = 0%nat ->
  exists reward totals,
    calculate_reward_and_done e
      = Some (reward, false, Env.with_reward_shaping_total totals e) /\
    reward = -0.001 /\ Totals.rw_energy totals = -0.001.
Proof.
  intros Hfield Hframe Hlast Hlimit Hactive.
  destruct e; cbn in Hfield, Hframe, Hlast, Hlimit, Hactive; subst.
  unfold calculate_reward_and_done, shaped_reward, ball_grad_rw,
    robot_grad_rw, energy_pen.
  cbn. eval_tests.
  eexists _, _. split; [reflexivity|].
  rewrite !clip_spec_progress, !spec_progress_still.
  unfold energy_scale. cbn. split; lra.
Qed.

Lemma axis_observe (fuel : nat) (e : Env.t) :
  Env.frame e = Examples.frame_axis ->
  exists obs,
    frame_to_observations Examples.norm_id Examples.norm_id Examples.norm_id
      fuel e
    = Some (obs,
            Env.with_possession_robot_idx (-1)
              (Env.with_active_robot_idx 0
                 (Env.with_last_possession (Env.possession_robot_idx e) e))).
Proof.
  intros Hframe.
  destruct e; cbn in Hframe; subst.
  unfold frame_to_observations, get_nearest_robot_idx, possession_update,
    threshold.
  cbn. eval_tests.
  destruct commands; cbn; eexists; reflexivity.
Qed.

Lemma axis_tick (e : Env.t) (rand : Rand.t) :
  Env.field e = Examples.field_b ->
  Env.frame e = Examples.frame_axis ->
  Env.done_limit e = Some (-0.5) ->
  Env.active_robot_idx e = 0%nat ->
  exists obs reward diag e' rand',
    step Examples.norm_id Examples.norm_id Examples.norm_id
         Examples.rsim_same 0 e Examples.action_idle rand
      = Some (obs, reward, false, diag, e', rand') /\
    reward = -0.001 /\ Totals.rw_energy diag = -0.001 /\
    Env.field e' = Examples.field_b /\
    Env.frame e' = Examples.frame_axis /\
    Env.done_limit e' = Some (-0.5) /\
    Env.active_robot_idx e' = 0%nat.
Proof.
  intros Hfield Hframe Hlimit Hactive.
  destruct (get_commands_defined e Examples.action_idle rand)
    as (cmds & rand' & Hget & _ & _).
  { rewrite Hframe. split; reflexivity. }
  unfold step, base_step. rewrite Hget. cbn [bind].
  set (e1 := Env.with_frame _ _).
  destruct (axis_engine e1) as (reward & totals & Hrun & Hreward & Henergy);
    try (subst e1; destruct e; cbn in *; subst; reflexivity).
  rewrite Hrun. cbn [bind].
  destruct (axis_observe 0 (Env.with_reward_shaping_total totals e1))
    as (obs & Hobs).
  { subst e1; destruct e; cbn in *; subst; reflexivity. }
  rewrite Hobs. cbn [bind].
  eexists _, _, _, _, _. split; [reflexivity|].
  subst e1; destruct e; cbn in *; subst. repeat split; assumption.
Qed.
Section Diagnostics.

Variables norm_pos norm_v norm_w : R -> R.
Variable rsim : Frame.t -> list Robot.t -> Frame.t.

(** C6, as the code has it.  The mapping that [step] returns is the one
    the engine rebuilt from zero during this very tick: whatever mapping
    the earlier ticks left in the environment, [step] returns the same
    result, so no value is carried over from one tick to the next; and
    at a tick that does not end the episode the three reward terms of
    the returned mapping add up to the reward of that tick alone. *)
Theorem diagnostics_rebuilt_every_tick
    (fuel : nat) (t : Totals.t) (e : Env.t) (action : Action.t)
    (rand : Rand.t) :
  step norm_pos norm_v norm_w rsim fuel
       (Env.with_reward_shaping_total t e) action rand
  = step norm_pos norm_v norm_w rsim fuel e action rand /\
  match step norm_pos norm_v norm_w rsim fuel e action rand with
  | Some (_, reward, done, diag, e', _) =>
      diag = Env.reward_shaping_total e' /\
      (if done then True
       else reward = Totals.rw_ball_grad diag + Totals.rw_robot_grad diag
                     + Totals.rw_energy diag)
  | None => True
  end.
Proof.
  split.
  - unfold step, base_step.
    rewrite get_commands_ignores_totals.
    destruct (get_commands e action rand) as [[[cmds e'] rand']|];
      [|reflexivity].
    cbn [bind].
    change (Env.with_frame ?f
              (Env.with_last_frame ?l (Env.with_reward_shaping_total t e')))
      with (Env.with_reward_shaping_total t
              (Env.with_frame f (Env.with_last_frame l e'))).
    change (Env.frame (Env.with_reward_shaping_total t e'))
      with (Env.frame e').
    now rewrite calculate_ignores_totals.
  - unfold step, base_step.
    destruct (get_commands e action rand) as [[[cmds e1] rand']|];
      cbn [bind]; [|exact I].
    destruct (calculate_reward_and_done _) as [[[reward done] e2]|] eqn:Hc;
      cbn [bind]; [|exact I].
    destruct (frame_to_observations _ _ _ _ _) as [[obs e3]|] eqn:Ho;
      cbn [bind]; [|exact I].
    split; [reflexivity|].
    destruct done; [exact I|].
    apply frame_to_observations_keeps in Ho. rewrite Ho.
    exact (calculate_in_play _ _ _ Hc).
Qed.

End Diagnostics.

(** C6, as stated, fails: two consecutive ticks of one episode on a frame
    that does not change, robot 0 driving its four wheels at 160.  Neither
    tick ends the episode and each earns the energy term -0.001.  After
    the second tick the mapping holds [rw_energy] = -0.001, the term of
    that tick alone, not the sum over both ticks. *)
Lemma diagnostics_not_cumulative :
  exists obs1 reward1 diag1 e1 rand1 obs2 reward2 diag2 e2 rand2 p,
    step Examples.norm_id Examples.norm_id Examples.norm_id
         Examples.rsim_same 0 Examples.env_axis Examples.action_idle
         Examples.rand_halves
      = Some (obs1, reward1, false, diag1, e1, rand1) /\
    step Examples.norm_id Examples.norm_id Examples.norm_id
         Examples.rsim_same 0 e1 Examples.action_idle rand1
      = Some (obs2, reward2, false, diag2, e2, rand2) /\
    Totals.rw_energy diag1 = -0.001 /\
    energy_pen e2 = Some p /\
    Totals.rw_energy diag2 = - p / energy_scale /\
    Totals.rw_energy diag2 <> Totals.rw_energy diag1 + - p / energy_scale.
Proof.
  destruct (axis_tick Examples.env_axis Examples.rand_halves)
    as (obs1 & reward1 & diag1 & e1 & rand1 & Hrun1 & _ & Hen1
        & Hfield & Hframe & Hlimit & Hactive); try reflexivity.
  destruct (axis_tick e1 rand1 Hfield Hframe Hlimit Hactive)
    as (obs2 & reward2 & diag2 & e2 & rand2 & Hrun2 & _ & Hen2
        & _ & Hframe2 & _).
  exists obs1, reward1, diag1, e1, rand1, obs2, reward2, diag2, e2, rand2.
  exists (160 + 160 + 160 + 160).
  split; [exact Hrun1|]. split; [exact Hrun2|]. split; [exact Hen1|].
  split.
  - unfold energy_pen. rewrite Hframe2. cbn. eval_abs. reflexivity.
  - rewrite Hen1, Hen2. unfold energy_scale. split; lra.
Qed.

Lemma gradient_terms_witness :
  exists b r,
    ball_grad_rw Examples.env_left_only = Some b /\
    robot_grad_rw Examples.env_left_only = Some r /\
    b = spec_progress (spec_goal_center_dist Examples.field_b 1 0)
                      (spec_goal_center_dist Examples.field_b 1 0) /\
    r = spec_progress (spec_goal_min_dist Examples.field_b 0.05 0)
                      (spec_goal_min_dist Examples.field_b (-0.01) 0) /\
    -1 <= b <= 1 /\ -1 <= r <= 1 /\
    ((1 : R) = 1 -> (0 : R) = 0 -> b = 0) /\
    ((0.05 : R) = -0.01 -> (0 : R) = 0 -> r = 0).
Proof.
  apply (gradient_terms Examples.env_left_only Examples.frame_retreat_before
           (Robot.placed 0.05 0 0) (Robot.placed (-0.01) 0 0));
    reflexivity.
Defined.

(** ** Possession heuristic *)

(** C10.  First-tick sentinel: while no command set exists ([commands]
    is [None]) the observation of a frame with the full rosters returns,
    and the possession index it leaves is -1, whatever the fuel, the
    positions and the headings. *)
Theorem first_tick_possession_sentinel
    (norm_pos norm_v norm_w : R -> R) (fuel : nat) (e : Env.t) :
  Env.commands e = None ->
  full_rosters (Env.frame e) ->
  exists obs e',
    frame_to_observations norm_pos norm_v norm_w fuel e = Some (obs, e') /\
    Env.possession_robot_idx e' = (-1)%Z.
Proof.
  intros Hcmd [Hb Hy].
  destruct (three_robots _ Hb) as (b0 & b1 & b2 & Eb).
  destruct (three_robots _ Hy) as (y0 & y1 & y2 & Ey).
  unfold frame_to_observations, get_nearest_robot_idx.
  rewrite Eb, Ey. cbn [take_robots n_robots_blue n_robots_yellow bind roster].
  rewrite Eb, Ey. cbn [bind].
  destruct (nearest_from _ _ 1 [b1; b2] _) as [nb nbd].
  destruct (nearest_from _ _ 1 [y1; y2] _) as [ny nyd].
  cbn [Env.commands Env.with_possession_robot_idx Env.with_active_robot_idx
       Env.with_last_possession].
  rewrite Hcmd. cbn [bind].
  eexists _, _. split; reflexivity.
Qed.

Lemma first_tick_possession_sentinel_witness :
  exists obs e',
    frame_to_observations Examples.norm_id Examples.norm_id Examples.norm_id
      0 Examples.env_first_tick = Some (obs, e') /\
    Env.possession_robot_idx e' = (-1)%Z.
Proof.
  apply (first_tick_possession_sentinel Examples.norm_id Examples.norm_id
           Examples.norm_id 0 Examples.env_first_tick).
  - reflexivity.
  - split; reflexivity.
Defined.

Lemma atan2_east y x : y = 0 -> 0 < x -> atan2 y x = 0.
Proof.
  intros -> Hx. unfold atan2. rewrite Rltb_true by exact Hx.
  unfold Rdiv. rewrite Rmult_0_l. apply atan_0.
Qed.

Lemma atan2_west y x : y = 0 -> x < 0 -> atan2 y x = PI.
Proof.
  intros -> Hx. unfold atan2.
  rewrite Rltb_false by lra. rewrite Rltb_true by exact Hx.
  rewrite Rleb_true by lra.
  unfold Rdiv. rewrite Rmult_0_l, atan_0. lra.
Qed.

(** An angle already within [-PI, PI] goes through both loops untouched,
    whatever the fuel. *)
Lemma alignment_no_wrap fuel Xr Yr theta Xb Yb :
  - PI <= atan2 (Yb - Yr) (Xb - Xr) - theta <= PI ->
  alignment fuel Xr Yr theta Xb Yb
  = Some ((PI - Rabs (atan2 (Yb - Yr) (Xb - Xr) - theta) - 0) / (PI - 0)).
Proof.
  intros [Hlo Hhi]. unfold alignment.
  assert (Hup : forall a, - PI <= a -> wrap_up fuel a = Some a).
  { intros a Ha. destruct fuel; cbn; now rewrite Rltb_false by lra. }
  assert (Hdown : forall a, a <= PI -> wrap_down fuel a = Some a).
  { intros a Ha. unfold Rgtb.
    destruct fuel; cbn; unfold Rgtb; now rewrite Rltb_false by lra. }
  rewrite Hup by exact Hlo. cbn [bind].
  rewrite Hdown by exact Hhi. reflexivity.
Qed.

(** The environment of a returned pair, put in place of its name. *)
Ltac take_env :=
  match goal with
  | |- Some (_, ?x) = Some (_, ?e') -> _ =>
      let H := fresh in
      let He := fresh in
      intros H; assert (He : e' = x) by congruence; subst e'; clear H
  end.

Ltac read_idx :=
  cbv [Env.possession_robot_idx Env.with_possession_robot_idx
       Env.with_active_robot_idx Env.with_last_possession].

(** The blue branch of the possession test: a blue index is recorded
    only for the nearest blue robot, within the threshold, with its own
    dribbler engaged and its own facing test passed. *)
Lemma blue_possession_sound
    (norm_pos norm_v norm_w : R -> R) (fuel : nat) (e : Env.t)
    (obs : list R) (e' : Env.t) :
  frame_to_observations norm_pos norm_v norm_w fuel e = Some (obs, e') ->
  (0 <= Env.possession_robot_idx e' < 3)%Z ->
  let f := Env.frame e in
  exists cmds i d c,
    Env.commands e = Some cmds /\
    get_nearest_robot_idx f (Ball.x (Frame.ball f)) (Ball.y (Frame.ball f))
      blue = Some (i, d) /\
    Env.possession_robot_idx e' = Z.of_nat i /\
    d <= threshold /\
    nth_error cmds i = Some c /\ Robot.dribbler c = true /\
    is_toward_ball fuel f blue i = Some true.
Proof.
  unfold frame_to_observations.
  destruct (take_robots _ _); cbn [bind]; [|discriminate].
  destruct (take_robots _ _); cbn [bind]; [|discriminate].
  destruct (get_nearest_robot_idx _ _ _ blue) as [[nb nbd]|]; cbn [bind];
    [|discriminate].
  destruct (get_nearest_robot_idx _ _ _ yellow) as [[ny nyd]|]; cbn [bind];
    [|discriminate].
  cbn [Env.commands Env.with_possession_robot_idx Env.with_active_robot_idx
       Env.with_last_possession].
  destruct (Env.commands e) as [cmds|]; cbn [bind].
  - unfold possession_update.
    cbn [Env.frame Env.with_possession_robot_idx Env.with_active_robot_idx
         Env.with_last_possession].
    destruct (Rleb nbd nyd).
    + destruct (Rleb_spec nbd threshold) as [Hd|Hd].
      * destruct (nth_error cmds nb) as [c|] eqn:Hc; cbn [bind];
          [|discriminate].
        destruct (Robot.dribbler c) eqn:Hdrib.
        -- destruct (is_toward_ball fuel (Env.frame e) blue nb) as [[|]|]
             eqn:Ht; cbn [bind]; try discriminate;
             take_env; read_idx; intros Hp; try lia.
           exists cmds, nb, nbd, c. repeat split; assumption.
        -- cbn [bind]. take_env; read_idx; lia.
      * cbn [bind]. take_env; read_idx; lia.
    + destruct (Rleb nyd threshold).
      * destruct (nth_error cmds _) as [c|]; cbn [bind]; [|discriminate].
        destruct (Robot.dribbler c).
        -- destruct (is_toward_ball fuel (Env.frame e) yellow nb) as [[|]|];
             cbn [bind]; try discriminate;
             take_env; read_idx; lia.
        -- cbn [bind]. take_env; read_idx; lia.
      * cbn [bind]. take_env; read_idx; lia.
  - take_env; read_idx; lia.
Qed.

Lemma nearest_from_bound px py rs : forall i best,
  (fst best < i)%nat ->
  (fst (nearest_from px py i rs best) < i + List.length rs)%nat.
Proof.
  induction rs as [|r rs IH]; intros i best Hbest; cbn [nearest_from].
  - cbn. lia.
  - cbn [List.length].
    replace (i + S (List.length rs))%nat with (S i + List.length rs)%nat
      by lia.
    apply IH. destruct (Rltb _ _); cbn [fst]; lia.
Qed.

Lemma get_nearest_robot_idx_bound f px py team i d :
  get_nearest_robot_idx f px py team = Some (i, d) ->
  (i < List.length (roster f team))%nat.
Proof.
  unfold get_nearest_robot_idx.
  destruct (roster f team) as [|r rs]; [discriminate|].
  intros H; injection H as H.
  pose proof (nearest_from_bound px py rs 1 (0%nat, robot_dist px py r))
    as Hb.
  rewrite H in Hb. cbn [fst List.length] in *. lia.
Qed.

(** The yellow branch: a yellow index is recorded for the nearest yellow
    robot, within the threshold, with its own dribbler engaged, and with
    the facing test passed by the yellow robot that has the index of the
    nearest blue robot. *)
Lemma yellow_possession_facing_index
    (norm_pos norm_v norm_w : R -> R) (fuel : nat) (e : Env.t)
    (obs : list R) (e' : Env.t) :
  full_rosters (Env.frame e) ->
  frame_to_observations norm_pos norm_v norm_w fuel e = Some (obs, e') ->
  (3 <= Env.possession_robot_idx e')%Z ->
  let f := Env.frame e in
  exists cmds nb nbd ny nyd c,
    Env.commands e = Some cmds /\
    get_nearest_robot_idx f (Ball.x (Frame.ball f)) (Ball.y (Frame.ball f))
      blue = Some (nb, nbd) /\
    get_nearest_robot_idx f (Ball.x (Frame.ball f)) (Ball.y (Frame.ball f))
      yellow = Some (ny, nyd) /\
    Env.possession_robot_idx e' = (3 + Z.of_nat ny)%Z /\
    nyd < nbd /\ nyd <= threshold /\
    nth_error cmds (n_robots_blue + ny) = Some c /\
    Robot.dribbler c = true /\
    is_toward_ball fuel f yellow nb = Some true.
Proof.
  intros [Hblue _]. unfold frame_to_observations.
  destruct (take_robots _ _); cbn [bind]; [|discriminate].
  destruct (take_robots _ _); cbn [bind]; [|discriminate].
  destruct (get_nearest_robot_idx _ _ _ blue) as [[nb nbd]|] eqn:Hnb;
    cbn [bind]; [|discriminate].
  apply get_nearest_robot_idx_bound in Hnb. cbn [roster] in Hnb.
  rewrite Hblue in Hnb. unfold n_robots_blue in Hnb.
  destruct (get_nearest_robot_idx _ _ _ yellow) as [[ny nyd]|]; cbn [bind];
    [|discriminate].
  cbn [Env.commands Env.with_possession_robot_idx Env.with_active_robot_idx
       Env.with_last_possession].
  destruct (Env.commands e) as [cmds|]; cbn [bind].
  - unfold possession_update.
    cbn [Env.frame Env.with_possession_robot_idx Env.with_active_robot_idx
         Env.with_last_possession].
    destruct (Rleb_spec nbd nyd) as [Hnear|Hnear].
    + destruct (Rleb nbd threshold).
      * destruct (nth_error cmds nb) as [c|]; cbn [bind]; [|discriminate].
        destruct (Robot.dribbler c).
        -- destruct (is_toward_ball fuel (Env.frame e) blue nb) as [[|]|];
             cbn [bind]; try discriminate; take_env; read_idx; lia.
        -- cbn [bind]. take_env; read_idx; lia.
      * cbn [bind]. take_env; read_idx; lia.
    + destruct (Rleb_spec nyd threshold) as [Hd|Hd].
      * destruct (nth_error cmds _) as [c|] eqn:Hc; cbn [bind];
          [|discriminate].
        destruct (Robot.dribbler c) eqn:Hdrib.
        -- destruct (is_toward_ball fuel (Env.frame e) yellow nb) as [[|]|]
             eqn:Ht; cbn [bind]; try discriminate;
             take_env; read_idx; intros Hp; try lia.
           exists cmds, nb, nbd, ny, nyd, c.
           repeat split; try assumption. lra.
        -- cbn [bind]. take_env; read_idx; lia.
      * cbn [bind]. take_env; read_idx; lia.
  - take_env; read_idx; lia.
Qed.

(** C4.  The possession test at a tick where the nearest yellow robot
    (robot 1, 0.12 from the ball, dribbler engaged) has the ball behind it:
    its own facing test fails, for every fuel.  The yellow branch of
    [_frame_to_observations] runs the facing test on the yellow robot
    whose index is that of the nearest blue robot (robot 0, which heads
    for the ball), so yellow robot 1 is recorded as in possession:
    the index left is 3 + 1. *)
Theorem yellow_possession_without_facing (fuel : nat) :
  get_nearest_robot_idx Examples.frame_yellow_near 0 0 yellow
    = Some (1%nat, Rabs (0.12 - 0)) /\
  is_toward_ball fuel Examples.frame_yellow_near yellow 1 = Some false /\
  exists obs e',
    frame_to_observations Examples.norm_id Examples.norm_id Examples.norm_id
      fuel Examples.env_yellow_near = Some (obs, e') /\
    Env.possession_robot_idx e' = 4%Z.
Proof.
  pose proof PI_RGT_0 as Hpi.
  split; [|split].
  - unfold get_nearest_robot_idx. cbn. eval_tests. reflexivity.
  - unfold is_toward_ball. cbn [roster Examples.frame_yellow_near
      Frame.robots_yellow nth_error bind].
    rewrite alignment_no_wrap; cbn; unfold deg2rad;
      rewrite atan2_west by lra; [|lra].
    cbn [bind]. f_equal. apply Rleb_false.
    replace (PI - 0 * (PI / 180)) with PI by lra.
    rewrite Rabs_pos_eq by lra.
    unfold Rdiv. replace (PI - PI - 0) with 0 by lra. lra.
  - unfold frame_to_observations, get_nearest_robot_idx, possession_update,
      threshold.
    cbn. eval_tests.
    unfold is_toward_ball. cbn [roster Examples.frame_yellow_near
      Frame.robots_yellow nth_error bind].
    rewrite alignment_no_wrap; cbn; unfold deg2rad;
      rewrite atan2_east by lra; [|lra].
    cbn [bind].
    rewrite Rleb_true.
    + cbn. eexists _, _. split; reflexivity.
    + replace (0 - 0 * (PI / 180)) with 0 by lra.
      rewrite Rabs_R0.
      replace ((PI - 0 - 0) / (PI - 0)) with 1 by (field; lra). lra.
Qed.

(** ** Command routing *)

(** The observation of [frame_blue1_near] makes robot 1 the active one. *)
Lemma observation_activates_nearest (fuel : nat) :
  exists obs e',
    frame_to_observations Examples.norm_id Examples.norm_id Examples.norm_id
      fuel (Examples.env_of Examples.frame_blue1_near None 0 (Some (-5)) None)
    = Some (obs, e') /\
    Env.active_robot_idx e' = 1%nat /\
    Env.active_robot_idx e' = Env.active_robot_idx Examples.env_active_1.
Proof.
  unfold frame_to_observations, get_nearest_robot_idx.
  cbn. eval_tests. eexists _, _. repeat split.
Qed.

(** C2.  The commands at a tick whose active robot is blue robot 1.  The
    command built from the policy's action is the second of the list, and
    the identity it carries is 0, as does the command of robot 0: no
    command carries the identity 1 on the blue side.  The kick of the
    non-active robot 0 follows the policy's kick component: with the same
    generators it kicks under [action_kick] and does not under
    [action_no_kick], although its own sampled action is the same in both
    runs. *)
Theorem active_command_carries_id_zero :
  Env.active_robot_idx Examples.env_active_1 = 1%nat /\
  (exists cmds e' rand' c0,
     get_commands Examples.env_active_1 Examples.action_kick
       Examples.rand_halves = Some (cmds, e', rand') /\
     map Robot.id cmds = [0; 0; 2; 0; 1; 2]%nat /\
     map Robot.yellow cmds = [false; false; false; true; true; true] /\
     nth_error cmds 0 = Some c0 /\ Robot.kick_v_x c0 = kick_speed_x) /\
  (exists cmds e' rand' c0,
     get_commands Examples.env_active_1 Examples.action_no_kick
       Examples.rand_halves = Some (cmds, e', rand') /\
     nth_error cmds 0 = Some c0 /\ Robot.kick_v_x c0 = 0).
Proof.
  split; [reflexivity|]. split.
  - destruct (get_commands_shape Examples.env_active_1 Examples.action_kick
                Examples.rand_halves)
      as (c0 & c1 & c2 & c3 & c4 & c5 & rand' & Hrun & _ & Hb & Hy & Hf & Hk);
      [split; reflexivity|].
    eexists _, _, _, c0. split; [exact Hrun|].
    cbn in Hb, Hy. injection Hb as I0 I1 I2. injection Hy as I3 I4 I5.
    split; [cbn [map]; now rewrite I0, I1, I2, I3, I4, I5|].
    split; [exact Hf|].
    split; [reflexivity|]. rewrite Hk. unfold blue_kick. cbn.
    now rewrite Rltb_true by lra.
  - destruct (get_commands_shape Examples.env_active_1
                Examples.action_no_kick Examples.rand_halves)
      as (c0 & c1 & c2 & c3 & c4 & c5 & rand' & Hrun & _ & _ & _ & _ & Hk);
      [split; reflexivity|].
    eexists _, _, _, c0. split; [exact Hrun|].
    split; [reflexivity|]. rewrite Hk. unfold blue_kick. cbn.
    now rewrite Rltb_false by lra.
Qed.

(** ** Episode initializer *)

Lemma dist_sym p q : KDTree.dist p q = KDTree.dist q p.
Proof.
  unfold KDTree.dist, norm2. f_equal. ring.
Qed.

(** [get_nearest] answers with a stored point and its distance, and no
    stored point is nearer. *)
Lemma nearest_of_spec p tr : forall best,
  snd best = KDTree.dist p (fst best) ->
  let r := KDTree.nearest_of p best tr in
  snd r = KDTree.dist p (fst r) /\
  (fst r = fst best \/ In (fst r) tr) /\
  snd r <= snd best /\
  Forall (fun q => snd r <= KDTree.dist p q) tr.
Proof.
  induction tr as [|q tr IH]; intros best Hbest; cbn.
  - repeat split; [assumption|now left|lra|constructor].
  - set (best' := if Rltb _ _ then _ else best).
    assert (Hb' : snd best' = KDTree.dist p (fst best')).
    { subst best'. destruct (Rltb _ _); [reflexivity|assumption]. }
    assert (Hle : snd best' <= snd best /\ snd best' <= KDTree.dist p q).
    { subst best'. destruct (Rltb_spec (KDTree.dist p q) (snd best));
        cbn; lra. }
    assert (Hin : fst best' = fst best \/ fst best' = q).
    { subst best'. destruct (Rltb _ _); [now right|now left]. }
    destruct (IH best' Hb') as (H1 & H2 & H3 & H4).
    split; [exact H1|]. split; [|split].
    + destruct H2 as [H2|H2]; [|now right; right].
      rewrite H2. destruct Hin as [Hin|Hin]; [now left|right; left; congruence].
    + lra.
    + constructor; [lra|exact H4].
Qed.

Lemma get_nearest_spec p tr q d :
  KDTree.get_nearest p tr = Some (q, d) ->
  In q tr /\ d = KDTree.dist p q /\
  Forall (fun q' => d <= KDTree.dist p q') tr.
Proof.
  destruct tr as [|q0 tr]; [discriminate|]. cbn.
  intros H; injection H as H.
  destruct (nearest_of_spec p tr (q0, KDTree.dist p q0) eq_refl)
    as (H1 & H2 & H3 & H4).
  rewrite H in *. cbn [fst snd] in *.
  split; [|split].
  - destruct H2 as [->|H2]; [now left|now right].
  - exact H1.
  - constructor; assumption.
Qed.

Lemma get_nearest_defined p tr :
  tr <> [] -> exists q d, KDTree.get_nearest p tr = Some (q, d).
Proof.
  destruct tr as [|q0 tr]; [congruence|]. intros _. cbn.
  destruct (KDTree.nearest_of p _ tr) as [q d]. now exists q, d.
Qed.

(** The loop of a robot ends only on a position at least [min_dist] from
    every stored point. *)
Lemma retry_pos_sound fuel fld places : forall pos g pos' g',
  retry_pos fuel fld places pos g = Some (pos', g') ->
  Forall (fun q => min_dist <= KDTree.dist pos' q) places.
Proof.
  induction fuel as [|fuel IH]; intros pos g pos' g'; cbn;
    destruct (KDTree.get_nearest pos places) as [[q d]|] eqn:Hn; cbn [bind];
    try discriminate;
    destruct (Rltb_spec d min_dist) as [Hlt|Hge]; try discriminate.
  - intros H; injection H as <- <-.
    apply get_nearest_spec in Hn. destruct Hn as (_ & _ & Hall).
    eapply Forall_impl; [|exact Hall]. cbn. intros; lra.
  - destruct (sample_pos fld g) as [pos1 g1]. apply IH.
  - intros H; injection H as <- <-.
    apply get_nearest_spec in Hn. destruct Hn as (_ & _ & Hall).
    eapply Forall_impl; [|exact Hall]. cbn. intros; lra.
Qed.

(** A position far enough from every stored point is kept at once. *)
Lemma retry_pos_accept fuel fld places pos g :
  places <> [] ->
  Forall (fun q => min_dist <= KDTree.dist pos q) places ->
  retry_pos fuel fld places pos g = Some (pos, g).
Proof.
  intros Hne Hall.
  destruct (get_nearest_defined pos places Hne) as (q & d & Hn).
  assert (Hd : ~ d < min_dist).
  { apply get_nearest_spec in Hn. destruct Hn as (Hin & -> & _).
    rewrite Forall_forall in Hall. specialize (Hall q Hin). lra. }
  destruct fuel; cbn; rewrite Hn; cbn [bind]; now rewrite Rltb_false.
Qed.

Lemma retry_ball_sound fuel fld : forall ball g ball' g',
  retry_ball fuel fld ball g = Some (ball', g') ->
  in_gk_area fld (Ball.x ball') (Ball.y ball') = false.
Proof.
  induction fuel as [|fuel IH]; intros ball g ball' g'; cbn;
    destruct (in_gk_area fld (Ball.x ball) (Ball.y ball)) eqn:Hin;
    try discriminate.
  - intros H; injection H as <- <-. exact Hin.
  - destruct (sample_ball fld g) as [b g1]. apply IH.
  - intros H; injection H as <- <-. exact Hin.
Qed.

(** The placement loops: what they add to the stored points and to the
    roster, one position per robot placed, each far from all before. *)
Lemma place_robots_sound fuel fld skip : forall range places robots g
    places' robots' g',
  place_robots fuel fld range skip places robots g
    = Some (places', robots', g') ->
  exists added,
    places' = places ++ added /\
    map pos_of robots' = map pos_of robots ++ added /\
    far_chain places added.
Proof.
  induction range as [|i range IH]; intros places robots g places' robots' g';
    cbn [place_robots].
  - intros H; injection H as <- <- <-.
    exists []. now rewrite !app_nil_r.
  - destruct (skip i); [apply IH|].
    destruct (sample_pos fld g) as [pos0 g0].
    destruct (retry_pos fuel fld places pos0 g0) as [[pos g1]|] eqn:Hpos;
      cbn [bind]; [|discriminate].
    destruct (theta_ g1) as [th g2].
    intros H. apply IH in H. destruct H as (added & -> & Hmap & Hfar).
    exists (pos :: added). unfold KDTree.insert in *.
    rewrite <- app_assoc. split; [reflexivity|]. split.
    + rewrite Hmap, map_app, <- app_assoc. cbn. now destruct pos.
    + cbn. split; [|exact Hfar].
      eapply retry_pos_sound; exact Hpos.
Qed.

Lemma far_chain_app base a1 a2 :
  far_chain base a1 -> far_chain (base ++ a1) a2 -> far_chain base (a1 ++ a2).
Proof.
  revert base. induction a1 as [|p a1 IH]; intros base; cbn.
  - now rewrite app_nil_r.
  - intros [Hp Hrest] H2. split; [exact Hp|].
    apply IH; [exact Hrest|]. now rewrite <- app_assoc.
Qed.

Lemma far_chain_incl base base' added :
  incl base' base -> far_chain base added -> far_chain base' added.
Proof.
  revert base base'. induction added as [|p added IH]; intros base base' Hincl;
    cbn; [trivial|].
  intros [Hp Hrest]. split.
  - rewrite Forall_forall in *. intros q Hq. apply Hp, Hincl, Hq.
  - eapply IH; [|exact Hrest].
    apply incl_app; [apply incl_appl; exact Hincl|apply incl_appr, incl_refl].
Qed.

Lemma separated_snoc base p :
  separated base ->
  Forall (fun q => min_dist <= KDTree.dist p q) base ->
  separated (base ++ [p]).
Proof.
  unfold separated. induction 1 as [|a l Ha Hl IH]; intros Hp; cbn.
  - constructor; constructor.
  - inversion Hp as [|? ? Hpa Hpl]; subst.
    constructor; [|apply IH; exact Hpl].
    apply Forall_app. split; [exact Ha|].
    constructor; [|constructor]. now rewrite dist_sym.
Qed.

Lemma far_chain_separated added : forall base,
  separated base -> far_chain base added -> separated (base ++ added).
Proof.
  induction added as [|p added IH]; intros base Hsep; cbn.
  - now rewrite app_nil_r.
  - intros [Hp Hrest].
    replace (base ++ p :: added) with ((base ++ [p]) ++ added)
      by (now rewrite <- app_assoc).
    apply IH; [|exact Hrest]. now apply separated_snoc.
Qed.

Lemma norm2_circle r a : 0 <= r -> norm2 (r * cos a) (r * sin a) = r.
Proof.
  intros Hr. unfold norm2.
  replace (r * cos a * (r * cos a) + r * sin a * (r * sin a))
    with (r * r * (Rsqr (sin a) + Rsqr (cos a))) by (unfold Rsqr; ring).
  rewrite sin2_cos2, Rmult_1_r. now apply sqrt_square.
Qed.

(** What every returned frame satisfies. *)
Lemma initial_frame_sound fuel e g f e' g' :
  get_initial_positions_frame fuel e g = Some (f, e', g') ->
  in_gk_area (Env.field e) (Ball.x (Frame.ball f)) (Ball.y (Frame.ball f))
    = false /\
  exists robot0 rest,
    Frame.robots_blue f = robot0 :: rest /\
    KDTree.dist (pos_of robot0) (ball_pos (Frame.ball f)) = 0.09 /\
    Env.done_limit e' = Some (Robot.x robot0 - 0.5) /\
    separated (loop_placed f).
Proof.
  unfold get_initial_positions_frame.
  destruct (sample_ball (Env.field e) g) as [b0 g0].
  destruct (retry_ball fuel (Env.field e) b0 g0) as [[ball g1]|] eqn:Hball;
    cbn [bind]; [|discriminate].
  destruct (theta_ g1) as [angle g2].
  destruct (place_robots fuel _ (seq 0 n_robots_blue) _ _ _ g2)
    as [[[places1 blues] g3]|] eqn:Hblue; cbn [bind]; [|discriminate].
  destruct (place_robots fuel _ (seq 0 n_robots_yellow) _ _ _ g3)
    as [[[places2 yellows] g4]|] eqn:Hyellow; cbn [bind]; [|discriminate].
  intros H; injection H as <- <- <-.
  apply retry_ball_sound in Hball.
  apply place_robots_sound in Hblue.
  destruct Hblue as (addedB & -> & HmapB & HfarB).
  apply place_robots_sound in Hyellow.
  destruct Hyellow as (addedY & _ & HmapY & HfarY).
  split; [exact Hball|].
  destruct blues as [|robot0 rest]; [destruct addedB; discriminate|].
  cbn [map app] in HmapB. injection HmapB as Hx Hy HmapB.
  exists robot0, rest. split; [reflexivity|].
  split; [|split].
  - unfold KDTree.dist, pos_of, ball_pos. cbn [fst snd Frame.ball].
    rewrite Hx, Hy.
    replace (Ball.x ball + 0.09 * cos (deg2rad angle) - Ball.x ball)
      with (0.09 * cos (deg2rad angle)) by ring.
    replace (Ball.y ball + 0.09 * sin (deg2rad angle) - Ball.y ball)
      with (0.09 * sin (deg2rad angle)) by ring.
    apply norm2_circle. lra.
  - cbn. now rewrite Hx.
  - unfold loop_placed. cbn [Frame.ball Frame.robots_blue Frame.robots_yellow tl].
    rewrite HmapB, HmapY. cbn [map app].
    change (ball_pos ball :: addedB ++ addedY)
      with ([ball_pos ball] ++ (addedB ++ addedY)).
    apply far_chain_separated.
    + constructor; constructor.
    + apply far_chain_app.
      * eapply far_chain_incl; [|exact HfarB].
        unfold KDTree.insert, KDTree.empty, ball_pos. cbn.
        intros q [<-|[]]. now left.
      * eapply far_chain_incl; [|exact HfarY].
        apply incl_app; [|apply incl_appr, incl_refl].
        intros q [<-|[]]. apply in_or_app. left. now left.
Qed.

Lemma retry_ball_accept fuel fld ball g :
  in_gk_area fld (Ball.x ball) (Ball.y ball) = false ->
  retry_ball fuel fld ball g = Some (ball, g).
Proof. intros H. destruct fuel; cbn; now rewrite H. Qed.

(** A point on the x axis is far from another one when the abscissas
    differ by [min_dist] or more. *)
Lemma far_on_axis px py qx qy :
  py = 0 -> qy = 0 -> min_dist <= px - qx \/ min_dist <= qx - px ->
  min_dist <= KDTree.dist (px, py) (qx, qy).
Proof.
  intros -> -> H. unfold KDTree.dist. cbn [fst snd].
  rewrite norm2_axis by lra. unfold min_dist in *.
  unfold Rabs. destruct (Rcase_abs (px - qx)); lra.
Qed.

Ltac far_places :=
  repeat (apply Forall_cons; [apply far_on_axis; unfold min_dist; lra|]);
  apply Forall_nil.

Ltac accept_pos :=
  rewrite retry_pos_accept; [cbn -[retry_pos] | discriminate | far_places].

Lemma initial_frame_run :
  exists f e' g',
    get_initial_positions_frame 0 Examples.env_fresh Examples.draws
    = Some (f, e', g').
Proof.
  unfold get_initial_positions_frame.
  cbn -[retry_ball place_robots].
  rewrite retry_ball_accept
    by (unfold in_gk_area; cbn; eval_abs; eval_cmp; reflexivity).
  cbn -[place_robots]. unfold deg2rad.
  replace (0 + (360 - 0) * 0) with 0 by lra.
  rewrite Rmult_0_l, cos_0, sin_0.
  cbn -[retry_pos]. unfold KDTree.insert, KDTree.empty. cbn -[retry_pos].
  do 5 accept_pos.
  eexists _, _, _. reflexivity.
Qed.

(** C3, as the code has it.  Every frame the initializer returns has the
    ball outside the goal area, blue robot 0 exactly 0.09 from the ball,
    and any two of the ball, the other blue robots and the yellow robots
    at least 0.2 apart. *)
Theorem initial_frame_postcondition
    (fuel : nat) (e : Env.t) (g : Rng.t) (f : Frame.t) (e' : Env.t)
    (g' : Rng.t) :
  get_initial_positions_frame fuel e g = Some (f, e', g') ->
  in_gk_area (Env.field e) (Ball.x (Frame.ball f)) (Ball.y (Frame.ball f))
    = false /\
  (exists robot0 rest,
     Frame.robots_blue f = robot0 :: rest /\
     KDTree.dist (pos_of robot0) (ball_pos (Frame.ball f)) = 0.09) /\
  separated (loop_placed f) /\ min_dist = 0.2.
Proof.
  intros Hrun.
  destruct (initial_frame_sound _ _ _ _ _ _ Hrun)
    as (Hball & robot0 & rest & Hblue & Hdist & _ & Hsep).
  split; [exact Hball|]. split; [now exists robot0, rest|].
  split; [exact Hsep|reflexivity].
Qed.

Lemma initial_frame_postcondition_witness :
  exists f e' g',
    get_initial_positions_frame 0 Examples.env_fresh Examples.draws
      = Some (f, e', g') /\
    in_gk_area (Env.field Examples.env_fresh)
               (Ball.x (Frame.ball f)) (Ball.y (Frame.ball f)) = false /\
    (exists robot0 rest,
       Frame.robots_blue f = robot0 :: rest /\
       KDTree.dist (pos_of robot0) (ball_pos (Frame.ball f)) = 0.09) /\
    separated (loop_placed f) /\ min_dist = 0.2.
Proof.
  destruct initial_frame_run as (f & e' & g' & Hrun).
  exists f, e', g'. split; [exact Hrun|].
  exact (initial_frame_postcondition 0 Examples.env_fresh Examples.draws
           f e' g' Hrun).
Defined.

(** C3, as stated, fails: the initializer returns a frame on the draws of
    [Examples.draws], and in it the ball and blue robot 0 are 0.09 apart,
    so the ball and the robots are not pairwise 0.2 apart. *)
Lemma initial_frame_too_close :
  exists f e' g' robot0 rest,
    get_initial_positions_frame 0 Examples.env_fresh Examples.draws
      = Some (f, e', g') /\
    Frame.robots_blue f = robot0 :: rest /\
    KDTree.dist (ball_pos (Frame.ball f)) (pos_of robot0) < 0.2 /\
    ~ separated (entities f).
Proof.
  destruct initial_frame_run as (f & e' & g' & Hrun).
  destruct (initial_frame_sound _ _ _ _ _ _ Hrun)
    as (_ & robot0 & rest & Hblue & Hdist & _).
  exists f, e', g', robot0, rest.
  rewrite dist_sym in Hdist.
  split; [exact Hrun|]. split; [exact Hblue|]. split; [lra|].
  unfold separated, entities. rewrite Hblue. cbn [map app].
  intros Hsep. inversion Hsep as [|? ? Hall _]; subst.
  inversion Hall as [|? ? Hnear _]; subst.
  unfold min_dist in Hnear. lra.
Qed.

(** * Further properties of the code *)

(** ** The termination chain *)

(** Case analysis on the tests of [_calculate_reward_and_done], each
    test becoming a fact about the frame. *)
Ltac engine_split :=
  unfold Rgtb;
  repeat (match goal with
          | |- context [Rltb ?a ?b] => destruct (Rltb_spec a b)
          end; cbn [orb andb bind]).

Lemma engine_run_goal :
  calculate_reward_and_done Examples.env_goal
  = Some (50, true,
          Env.with_reward_shaping_total (Totals.add_goal 1 Totals.zero)
            Examples.env_goal).
Proof.
  unfold calculate_reward_and_done.
  simpl. eval_abs. eval_cmp. simpl. reflexivity.
Qed.

(** X1.  The done flag: whenever the engine returns, the episode is
    reported as ended exactly when robot 0 or the ball is behind
    [done_limit], or robot 0 is outside the field, or the ball is outside
    the field. *)
Theorem engine_done_iff (e : Env.t) (robot : Robot.t) (limit reward : R)
    (done : bool) (e' : Env.t) :
  nth_error (Frame.robots_blue (Env.frame e)) 0 = Some robot ->
  Env.done_limit e = Some limit ->
  calculate_reward_and_done e = Some (reward, done, e') ->
  (done = true <->
   left_out limit robot (Frame.ball (Env.frame e))
   \/ robot_out (Env.field e) robot
   \/ ball_out (Env.field e) (Frame.ball (Env.frame e))).
Proof.
  intros Hrobot Hlimit. unfold calculate_reward_and_done.
  rewrite Hrobot, Hlimit. cbn [bind].
  unfold left_out, robot_out, ball_out.
  engine_split;
    match goal with
    | |- context [shaped_reward] =>
        destruct (shaped_reward _ _ _ _) as [[[sr sd] st]|] eqn:Hs;
        cbn [bind]; [|discriminate];
        apply shaped_reward_done in Hs; subst sd
    | _ => idtac
    end;
    intros H; injection H as _ <- _;
    (split; [intros Hd; try discriminate Hd | intros Hc; try reflexivity]).
  all: try tauto.
  all: exfalso; destruct Hc as [[?|?]|[[?|?]|[?|[?|?]]]]; lra.
Qed.

Lemma engine_done_iff_witness :
  true = true <->
  left_out (-2) (Robot.placed (-0.01) 0 0)
           (Frame.ball (Env.frame Examples.env_goal))
  \/ robot_out (Env.field Examples.env_goal) (Robot.placed (-0.01) 0 0)
  \/ ball_out (Env.field Examples.env_goal)
              (Frame.ball (Env.frame Examples.env_goal)).
Proof.
  apply (engine_done_iff Examples.env_goal (Robot.placed (-0.01) 0 0) (-2)
           50 true _ eq_refl eq_refl engine_run_goal).
Defined.

Lemma clip_range v : -1 <= clip v (-1) 1 <= 1.
Proof. unfold clip. minmax. Qed.

Lemma ball_grad_rw_range e b : ball_grad_rw e = Some b -> -1 <= b <= 1.
Proof.
  unfold ball_grad_rw. destruct (Env.last_frame e); cbn [bind];
    [|discriminate].
  intros H; injection H as <-. apply clip_range.
Qed.

Lemma robot_grad_rw_range e g : robot_grad_rw e = Some g -> -1 <= g <= 1.
Proof.
  unfold robot_grad_rw. destruct (Env.last_frame e); cbn [bind];
    [|discriminate].
  destruct (nth_error _ _); cbn [bind]; [|discriminate].
  destruct (nth_error _ _); cbn [bind]; [|discriminate].
  intros H; injection H as <-. apply clip_range.
Qed.

Lemma energy_pen_nonneg e p : energy_pen e = Some p -> 0 <= p.
Proof.
  unfold energy_pen. destruct (nth_error _ _) as [robot|]; cbn [bind];
    [|discriminate].
  intros H; injection H as <-.
  pose proof (Rabs_pos (Robot.v_wheel0 robot)).
  pose proof (Rabs_pos (Robot.v_wheel1 robot)).
  pose proof (Rabs_pos (Robot.v_wheel2 robot)).
  pose proof (Rabs_pos (Robot.v_wheel3 robot)). lra.
Qed.

(** What the last branch of the chain returns. *)
Lemma shaped_reward_inv e t r d r' d' t' :
  shaped_reward e t r d = Some (r', d', t') ->
  d' = d /\
  ((Env.last_frame e = None /\ r' = r /\ t' = t) \/
   (exists lf b g p,
      Env.last_frame e = Some lf /\ ball_grad_rw e = Some b /\
      robot_grad_rw e = Some g /\ energy_pen e = Some p /\
      r' = b + 0.2 * g + - p / energy_scale /\
      t' = Totals.add_rw_energy (- p / energy_scale)
             (Totals.add_rw_robot_grad (0.2 * g)
                (Totals.add_rw_ball_grad b t)))).
Proof.
  unfold shaped_reward.
  destruct (Env.last_frame e) as [lf|].
  - destruct (ball_grad_rw e) as [b|]; cbn [bind]; [|discriminate].
    destruct (robot_grad_rw e) as [g|]; cbn [bind]; [|discriminate].
    destruct (energy_pen e) as [p|]; cbn [bind]; [|discriminate].
    intros H; injection H as <- <- <-. split; [reflexivity|]. right.
    exists lf, b, g, p. repeat split.
  - intros H; injection H as <- <- <-. split; [reflexivity|]. now left.
Qed.

(** X2.  The counters of the mapping: in every mapping the engine
    returns, [done_robot_in_gk_area] and [rw_robot_orientation] are 0,
    [done_left_out] is 0 or 1, at most one of [done_robot_out],
    [done_ball_out] and [goal] is set (to 1, or to -1 for [goal]), and
    when one of them is set the three reward terms are 0. *)
Theorem engine_counters (e : Env.t) (reward : R) (done : bool) (e' : Env.t) :
  calculate_reward_and_done e = Some (reward, done, e') ->
  let t := Env.reward_shaping_total e' in
  Totals.done_robot_in_gk_area t = 0%Z /\
  Totals.rw_robot_orientation t = 0 /\
  (Totals.done_left_out t = 0%Z \/ Totals.done_left_out t = 1%Z) /\
  ((Totals.done_robot_out t, Totals.done_ball_out t, Totals.goal t)
     = (0, 0, 0)%Z
   \/ ((Totals.done_robot_out t, Totals.done_ball_out t, Totals.goal t)
         = (1, 0, 0)%Z
       \/ (Totals.done_robot_out t, Totals.done_ball_out t, Totals.goal t)
            = (0, 1, 0)%Z
       \/ (Totals.done_robot_out t, Totals.done_ball_out t, Totals.goal t)
            = (0, 0, 1)%Z
       \/ (Totals.done_robot_out t, Totals.done_ball_out t, Totals.goal t)
            = (0, 0, -1)%Z)
      /\ Totals.rw_ball_grad t = 0 /\ Totals.rw_robot_grad t = 0
      /\ Totals.rw_energy t = 0).
Proof.
  unfold calculate_reward_and_done.
  destruct (nth_error _ 0) as [robot|]; cbn [bind]; [|discriminate].
  destruct (Env.done_limit e) as [limit|]; cbn [bind]; [|discriminate].
  engine_split;
    match goal with
    | |- context [shaped_reward] =>
        destruct (shaped_reward _ _ _ _) as [[[sr sd] st]|] eqn:Hs;
        cbn [bind]; [|discriminate];
        apply shaped_reward_inv in Hs;
        destruct Hs as [_ [(_ & _ & ->)|(lf & b & g & p & _ & _ & _ & _ & _ & ->)]]
    | _ => idtac
    end;
    intros H; injection H as _ _ <-; cbn; tauto.
Qed.

Lemma engine_counters_witness :
  let t := Env.reward_shaping_total
             (Env.with_reward_shaping_total (Totals.add_goal 1 Totals.zero)
                Examples.env_goal) in
  Totals.done_robot_in_gk_area t = 0%Z /\
  Totals.rw_robot_orientation t = 0 /\
  (Totals.done_left_out t = 0%Z \/ Totals.done_left_out t = 1%Z) /\
  ((Totals.done_robot_out t, Totals.done_ball_out t, Totals.goal t)
     = (0, 0, 0)%Z
   \/ ((Totals.done_robot_out t, Totals.done_ball_out t, Totals.goal t)
         = (1, 0, 0)%Z
       \/ (Totals.done_robot_out t, Totals.done_ball_out t, Totals.goal t)
            = (0, 1, 0)%Z
       \/ (Totals.done_robot_out t, Totals.done_ball_out t, Totals.goal t)
            = (0, 0, 1)%Z
       \/ (Totals.done_robot_out t, Totals.done_ball_out t, Totals.goal t)
            = (0, 0, -1)%Z)
      /\ Totals.rw_ball_grad t = 0 /\ Totals.rw_robot_grad t = 0
      /\ Totals.rw_energy t = 0).
Proof.
  exact (engine_counters Examples.env_goal 50 true _ engine_run_goal).
Defined.

(** X3.  Robot out of the field: when robot 0 is outside the field the
    episode ends with [done_robot_out] at 1 whatever the ball does, no
    goal and no ball-out is counted, and the reward is -10 when the
    [done_limit] test fired as well and 0 otherwise. *)
Theorem robot_out_rule (e : Env.t) (robot : Robot.t) (limit : R) :
  nth_error (Frame.robots_blue (Env.frame e)) 0 = Some robot ->
  Env.done_limit e = Some limit ->
  robot_out (Env.field e) robot ->
  exists reward totals,
    calculate_reward_and_done e
      = Some (reward, true, Env.with_reward_shaping_total totals e) /\
    Totals.done_robot_out totals = 1%Z /\
    Totals.goal totals = 0%Z /\ Totals.done_ball_out totals = 0%Z /\
    (left_out limit robot (Frame.ball (Env.frame e)) ->
       reward = -10 /\ Totals.done_left_out totals = 1%Z) /\
    (~ left_out limit robot (Frame.ball (Env.frame e)) ->
       reward = 0 /\ Totals.done_left_out totals = 0%Z).
Proof.
  intros Hrobot Hlimit Hout. unfold calculate_reward_and_done.
  rewrite Hrobot, Hlimit. cbn [bind].
  unfold robot_out, left_out in *.
  engine_split; try (exfalso; destruct Hout; lra);
    eexists _, _; (split; [reflexivity|]); cbn;
    repeat split; try tauto; intros Hc; exfalso; tauto.
Qed.

Lemma robot_out_rule_witness :
  exists reward totals,
    calculate_reward_and_done Examples.env_robot_out
      = Some (reward, true,
              Env.with_reward_shaping_total totals Examples.env_robot_out) /\
    Totals.done_robot_out totals = 1%Z /\
    Totals.goal totals = 0%Z /\ Totals.done_ball_out totals = 0%Z /\
    (left_out (-2) (Robot.placed 4.51 0 0)
              (Frame.ball (Env.frame Examples.env_robot_out)) ->
       reward = -10 /\ Totals.done_left_out totals = 1%Z) /\
    (~ left_out (-2) (Robot.placed 4.51 0 0)
                (Frame.ball (Env.frame Examples.env_robot_out)) ->
       reward = 0 /\ Totals.done_left_out totals = 0%Z).
Proof.
  apply (robot_out_rule Examples.env_robot_out (Robot.placed 4.51 0 0) (-2)).
  - reflexivity.
  - reflexivity.
  - right. simpl. eval_abs. lra.
Defined.



(** X5.  The reward of a goal: whenever the engine returns, the reward is
    50 exactly when [goal] is 1 in the mapping, and it is -50 whenever
    [goal] is -1. *)
Theorem reward_fifty_iff_goal (e : Env.t) (reward : R) (done : bool)
    (e' : Env.t) :
  calculate_reward_and_done e = Some (reward, done, e') ->
  (reward = 50 <-> Totals.goal (Env.reward_shaping_total e') = 1%Z) /\
  (Totals.goal (Env.reward_shaping_total e') = (-1)%Z -> reward = -50).
Proof.
  unfold calculate_reward_and_done.
  destruct (nth_error _ 0) as [robot|]; cbn [bind]; [|discriminate].
  destruct (Env.done_limit e) as [limit|]; cbn [bind]; [|discriminate].
  engine_split;
    match goal with
    | |- context [shaped_reward] =>
        destruct (shaped_reward _ _ _ _) as [[[sr sd] st]|] eqn:Hs;
        cbn [bind]; [|discriminate];
        apply shaped_reward_inv in Hs;
        destruct Hs as [_ [(_ & -> & ->)
                          |(lf & b & g & p & _ & Hb & Hg & Hp & -> & ->)]];
        try (apply ball_grad_rw_range in Hb; apply robot_grad_rw_range in Hg;
             apply energy_pen_nonneg in Hp;
             assert (Hq : 0 <= p / energy_scale)
               by (apply Rmult_le_pos;
                   [exact Hp
                   |left; apply Rinv_0_lt_compat; unfold energy_scale; lra]))
    | _ => idtac
    end;
    intros Hrun; injection Hrun as <- _ <-; cbn;
    (split; [split; intros Hc; try reflexivity; try discriminate Hc;
             exfalso; lra
            |intros Hc; try reflexivity; try discriminate Hc]).
Qed.

Lemma reward_fifty_iff_goal_witness :
  ((50 : R) = 50 <->
   Totals.goal (Env.reward_shaping_total
                  (Env.with_reward_shaping_total
                     (Totals.add_goal 1 Totals.zero) Examples.env_goal))
   = 1%Z) /\
  (Totals.goal (Env.reward_shaping_total
                  (Env.with_reward_shaping_total
                     (Totals.add_goal 1 Totals.zero) Examples.env_goal))
   = (-1)%Z -> (50 : R) = -50).
Proof.
  exact (reward_fifty_iff_goal Examples.env_goal 50 true _ engine_run_goal).
Defined.

(** X6.  The reward of a tick that does not end the episode is at most
    1.2, and at least -1.201 when no wheel of robot 0 turns faster than
    160. *)
Theorem in_play_reward_bounds (e : Env.t) (robot : Robot.t) (reward : R)
    (e' : Env.t) :
  nth_error (Frame.robots_blue (Env.frame e)) 0 = Some robot ->
  calculate_reward_and_done e = Some (reward, false, e') ->
  reward <= 1.2 /\
  (Rabs (Robot.v_wheel0 robot) <= 160 -> Rabs (Robot.v_wheel1 robot) <= 160 ->
   Rabs (Robot.v_wheel2 robot) <= 160 -> Rabs (Robot.v_wheel3 robot) <= 160 ->
   -1.201 <= reward).
Proof.
  intros Hrobot. unfold calculate_reward_and_done.
  rewrite Hrobot. cbn [bind].
  destruct (Env.done_limit e) as [limit|]; cbn [bind]; [|discriminate].
  engine_split; try discriminate;
    destruct (shaped_reward _ _ _ _) as [[[sr sd] st]|] eqn:Hs;
    cbn [bind]; try discriminate;
    apply shaped_reward_inv in Hs;
    destruct Hs as [-> [(_ & -> & ->)
                       |(lf & b & g & p & _ & Hb & Hg & Hp & -> & ->)]];
    intros Hrun; try discriminate Hrun; injection Hrun as <- _;
    try (split; [lra|intros; lra]).
  all: apply ball_grad_rw_range in Hb; apply robot_grad_rw_range in Hg;
    pose proof (energy_pen_nonneg _ _ Hp) as Hp0;
    unfold energy_pen in Hp; rewrite Hrobot in Hp; cbn [bind] in Hp;
    injection Hp as <-;
    unfold energy_scale in *; split; [lra|intros H0 H1 H2 H3; lra].
Qed.

Lemma engine_run_first_tick :
  calculate_reward_and_done Examples.env_first_tick
  = Some (0, false,
          Env.with_reward_shaping_total Totals.zero Examples.env_first_tick).
Proof.
  unfold calculate_reward_and_done, shaped_reward.
  simpl. eval_abs. eval_cmp. simpl. reflexivity.
Qed.

Lemma in_play_reward_bounds_witness :
  exists reward e',
    calculate_reward_and_done Examples.env_axis_running
      = Some (reward, false, e') /\
    reward <= 1.2 /\
    (Rabs 160 <= 160 -> Rabs 160 <= 160 ->
     Rabs 160 <= 160 -> Rabs 160 <= 160 ->
     -1.201 <= reward).
Proof.
  destruct (axis_engine Examples.env_axis_running
              eq_refl eq_refl eq_refl eq_refl eq_refl)
    as (reward & totals & Hrun & _).
  eexists _, _. split; [exact Hrun|].
  exact (in_play_reward_bounds Examples.env_axis_running
           (Examples.spinning 0) reward _ eq_refl Hrun).
Defined.

(** X7.  The first tick: with no previous frame, robot 0 and the ball in
    front of [done_limit] and inside the field, the engine returns reward
    0, an episode that goes on, and a mapping of zeros; no gradient term
    is computed. *)
Theorem engine_first_tick (e : Env.t) (robot : Robot.t) (limit : R) :
  nth_error (Frame.robots_blue (Env.frame e)) 0 = Some robot ->
  Env.done_limit e = Some limit ->
  Env.last_frame e = None ->
  ~ left_out limit robot (Frame.ball (Env.frame e)) ->
  ~ robot_out (Env.field e) robot ->
  ~ ball_out (Env.field e) (Frame.ball (Env.frame e)) ->
  calculate_reward_and_done e
  = Some (0, false, Env.with_reward_shaping_total Totals.zero e) /\
  ball_grad_rw e = None /\ robot_grad_rw e = None.
Proof.
  intros Hrobot Hlimit Hlast Hleft Hrout Hbout.
  split.
  - unfold calculate_reward_and_done, shaped_reward.
    rewrite Hrobot, Hlimit, Hlast. cbn [bind].
    unfold left_out, robot_out, ball_out in *.
    engine_split; try reflexivity; exfalso; tauto.
  - unfold ball_grad_rw, robot_grad_rw. rewrite Hlast. split; reflexivity.
Qed.

Lemma engine_first_tick_witness :
  calculate_reward_and_done Examples.env_first_tick
  = Some (0, false,
          Env.with_reward_shaping_total Totals.zero Examples.env_first_tick)
  /\ ball_grad_rw Examples.env_first_tick = None
  /\ robot_grad_rw Examples.env_first_tick = None.
Proof.
  apply (engine_first_tick Examples.env_first_tick (Examples.on_axis 1) (-5)).
  - reflexivity.
  - reflexivity.
  - reflexivity.
  - unfold left_out. simpl. lra.
  - unfold robot_out. simpl. eval_abs. lra.
  - unfold ball_out. simpl. eval_abs. lra.
Defined.

(** X8.  When the engine raises: exactly when blue robot 0 is missing
    from the frame, or [done_limit] is still [None], or the chain reaches
    its last branch (robot 0 and the ball inside the field) with a
    previous frame at hand and the active robot missing from the previous
    or the current frame. *)
Theorem engine_fails_iff (e : Env.t) :
  calculate_reward_and_done e = None <->
  nth_error (Frame.robots_blue (Env.frame e)) 0 = None
  \/ Env.done_limit e = None
  \/ exists robot lf,
       nth_error (Frame.robots_blue (Env.frame e)) 0 = Some robot /\
       ~ robot_out (Env.field e) robot /\
       ~ ball_out (Env.field e) (Frame.ball (Env.frame e)) /\
       Env.last_frame e = Some lf /\
       (nth_error (Frame.robots_blue lf) (Env.active_robot_idx e) = None
        \/ nth_error (Frame.robots_blue (Env.frame e))
                     (Env.active_robot_idx e) = None).
Proof.
  unfold calculate_reward_and_done.
  destruct (nth_error (Frame.robots_blue (Env.frame e)) 0) as [robot|]
    eqn:Hrobot; cbn [bind]; [|split; [now left|reflexivity]].
  destruct (Env.done_limit e) as [limit|]; cbn [bind];
    [|split; [now right; left|reflexivity]].
  assert (Hshaped : forall t r d,
             shaped_reward e t r d = None <->
             exists lf, Env.last_frame e = Some lf /\
               (nth_error (Frame.robots_blue lf) (Env.active_robot_idx e)
                  = None
                \/ nth_error (Frame.robots_blue (Env.frame e))
                             (Env.active_robot_idx e) = None)).
  { intros t r d. unfold shaped_reward, ball_grad_rw, robot_grad_rw, energy_pen.
    rewrite Hrobot.
    destruct (Env.last_frame e) as [lf|]; cbn [bind].
    - destruct (nth_error (Frame.robots_blue lf) (Env.active_robot_idx e))
        as [lr|] eqn:Hlr; cbn [bind].
      + destruct (nth_error (Frame.robots_blue (Env.frame e))
                            (Env.active_robot_idx e)) as [cr|]; cbn [bind].
        * split; [discriminate|].
          intros (lf' & Heq & [H|H]); [|discriminate H].
          injection Heq as <-. congruence.
        * split; [intros _; exists lf; tauto|reflexivity].
      + split; [intros _; exists lf; tauto|reflexivity].
    - split; [discriminate|]. intros (lf' & H & _); discriminate H. }
  unfold robot_out, ball_out.
  engine_split.
  all: try (split; [discriminate|];
            intros [Hc|[Hc|(robot' & lf & Hr & Hro & Hbo & _)]];
            try discriminate Hc; exfalso; injection Hr as <-;
            first [ apply Hro; first [left; lra | right; lra]
                  | apply Hbo;
                    first [left; lra | right; left; lra | right; right; lra] ]).
  all: destruct (shaped_reward _ _ _ _) as [[[sr sd] st]|] eqn:Hs;
    cbn [bind].
  all: try (split; [discriminate|];
            intros [Hc|[Hc|(robot' & lf & _ & _ & _ & Hlf & Hmiss)]];
            try discriminate Hc;
            match type of Hs with
            | shaped_reward _ ?t ?r ?d = _ =>
                pose proof (proj2 (Hshaped t r d)
                              (ex_intro _ lf (conj Hlf Hmiss))) as Habs
            end;
            rewrite Hs in Habs; discriminate Habs).
  all: split; [intros _|reflexivity];
    apply Hshaped in Hs; destruct Hs as (lf & Hlf & Hmiss);
    right; right; exists robot, lf;
    repeat split; try assumption;
    first [ intros [Hc|Hc]; lra | intros [Hc|[Hc|Hc]]; lra ].
Qed.

(** ** Commands *)

Lemma sample_in_box g :
  unit_draws g ->
  Action.in_box (fst (action_space_sample g)) /\
  Rng.stream (snd (action_space_sample g)) = Rng.stream g.
Proof.
  intros Hg. unfold action_space_sample, Rng.uniform, Rng.random.
  cbn [fst snd Rng.stream Rng.cursor]. split; [|reflexivity].
  unfold Action.in_box. cbn [Action.a0 Action.a1 Action.a2 Action.a3].
  pose proof (Hg (Rng.cursor g)). pose proof (Hg (S (Rng.cursor g))).
  pose proof (Hg (S (S (Rng.cursor g)))).
  pose proof (Hg (S (S (S (Rng.cursor g))))).
  repeat split; lra.
Qed.

Lemma convert_actions_limits action angle :
  exists v_x v_y,
    convert_actions action angle
      = Some (v_x, v_y, Action.a2 action * max_w) /\
    norm2 v_x v_y <= max_v /\
    (Action.in_box action -> Rabs (Action.a2 action * max_w) <= max_w).
Proof.
  destruct (convert_actions_clamped action angle) as (c & _ & Hrun & _ & Hb).
  eexists _, _. split; [exact Hrun|]. split; [exact Hb|].
  intros (_ & _ & H2 & _). unfold max_w. apply Rabs_le. lra.
Qed.

(** One blue command: what it holds and what it leaves of the
    generators. *)
Lemma blue_command_limits e actions i rand r :
  nth_error (Frame.robots_blue (Env.frame e)) i = Some r ->
  exists cmd rand',
    blue_command e actions i rand = Some (cmd, rand') /\
    command_ok cmd /\ Robot.yellow cmd = false /\
    Rng.stream (Rand.np rand') = Rng.stream (Rand.np rand) /\
    (Action.in_box actions -> unit_draws (Rand.np rand) ->
     Rabs (Robot.v_theta cmd) <= max_w).
Proof.
  intros Hr. unfold blue_command, command_ok.
  destruct (Nat.eqb_spec i (Env.active_robot_idx e)) as [<- | Hne];
    cbn [negb]; rewrite Hr.
  - cbn [bind].
    destruct (convert_actions_limits actions (deg2rad (Robot.theta r)))
      as (vx & vy & -> & Hn & Hw). cbn [bind].
    unfold Rng.uniform, Rng.random.
    eexists _, _. split; [reflexivity|].
    cbn [Robot.command Robot.dribbler Robot.v_x Robot.v_y Robot.kick_v_x
         Robot.yellow Robot.v_theta Rand.np].
    repeat split; try assumption; try reflexivity.
    + destruct (Rltb _ _); tauto.
    + intros Hbox _. now apply Hw.
  - destruct (action_space_sample (Rand.np rand)) as [random_actions npg]
      eqn:Hsample.
    cbn [bind].
    destruct (convert_actions_limits random_actions (deg2rad (Robot.theta r)))
      as (vx & vy & -> & Hn & Hw). cbn [bind].
    unfold Rng.uniform, Rng.random.
    eexists _, _. split; [reflexivity|].
    cbn [Robot.command Robot.dribbler Robot.v_x Robot.v_y Robot.kick_v_x
         Robot.yellow Robot.v_theta Rand.np].
    repeat split; try assumption; try reflexivity.
    + destruct (Rltb _ _); tauto.
    + change npg with (snd (random_actions, npg)). rewrite <- Hsample.
      unfold action_space_sample, Rng.uniform, Rng.random. reflexivity.
    + intros _ Hdraws. apply Hw.
      change random_actions with (fst (random_actions, npg)).
      rewrite <- Hsample. now apply sample_in_box.
Qed.

Lemma yellow_command_limits e i rand r :
  nth_error (Frame.robots_yellow (Env.frame e)) i = Some r ->
  exists cmd rand',
    yellow_command e i rand = Some (cmd, rand') /\
    command_ok cmd /\ Robot.yellow cmd = true /\
    Rng.stream (Rand.np rand') = Rng.stream (Rand.np rand) /\
    (unit_draws (Rand.np rand) -> Rabs (Robot.v_theta cmd) <= max_w).
Proof.
  intros Hr. unfold yellow_command, command_ok.
  destruct (action_space_sample (Rand.np rand)) as [random_actions npg]
    eqn:Hsample.
  rewrite Hr. cbn [bind].
  destruct (convert_actions_limits random_actions (deg2rad (Robot.theta r)))
    as (vx & vy & -> & Hn & Hw). cbn [bind].
  eexists _, _. split; [reflexivity|].
  cbn [Robot.command Robot.dribbler Robot.v_x Robot.v_y Robot.kick_v_x
       Robot.yellow Robot.v_theta Rand.np].
  repeat split; try assumption; try reflexivity.
  - destruct (Rgtb _ _); tauto.
  - change npg with (snd (random_actions, npg)). rewrite <- Hsample.
    unfold action_space_sample, Rng.uniform, Rng.random. reflexivity.
  - intros Hdraws. apply Hw.
    change random_actions with (fst (random_actions, npg)).
    rewrite <- Hsample. now apply sample_in_box.
Qed.

Lemma unit_draws_stream g g' :
  Rng.stream g' = Rng.stream g -> unit_draws g -> unit_draws g'.
Proof. unfold unit_draws. intros -> H. exact H. Qed.

(** X9.  The command set: on a frame with the full rosters
    [_get_commands] returns six commands, the three blue ones first, and
    keeps them as the environment's command set; each has its dribbler
    engaged, a linear speed of at most [max_v] and a kick that is 0 or
    [kick_speed_x]; with the policy's action in [-1,1]^4 and unit draws
    in [0,1], each has an angular speed of at most [max_w]. *)
Theorem get_commands_well_formed (e : Env.t) (actions : Action.t)
    (rand : Rand.t) :
  full_rosters (Env.frame e) ->
  exists cmds rand',
    get_commands e actions rand
      = Some (cmds, Env.with_commands (Some cmds) e, rand') /\
    List.length cmds = (n_robots_blue + n_robots_yellow)%nat /\
    map Robot.yellow cmds = [false; false; false; true; true; true] /\
    Forall command_ok cmds /\
    (Action.in_box actions -> unit_draws (Rand.np rand) ->
     Forall (fun c => Rabs (Robot.v_theta c) <= max_w) cmds).
Proof.
  intros [Hb Hy].
  destruct (three_robots _ Hb) as (b0 & b1 & b2 & Eb).
  destruct (three_robots _ Hy) as (y0 & y1 & y2 & Ey).
  unfold get_commands. cbn [seq n_robots_blue n_robots_yellow for_commands].
  destruct (blue_command_limits e actions 0 rand b0)
    as (c0 & g0 & -> & K0 & Y0 & S0 & W0); [rewrite Eb; reflexivity|].
  cbn [bind].
  destruct (blue_command_limits e actions 1 g0 b1)
    as (c1 & g1 & -> & K1 & Y1 & S1 & W1); [rewrite Eb; reflexivity|].
  cbn [bind].
  destruct (blue_command_limits e actions 2 g1 b2)
    as (c2 & g2 & -> & K2 & Y2 & S2 & W2); [rewrite Eb; reflexivity|].
  cbn [bind].
  destruct (yellow_command_limits e 0 g2 y0)
    as (c3 & g3 & -> & K3 & Y3 & S3 & W3); [rewrite Ey; reflexivity|].
  cbn [bind].
  destruct (yellow_command_limits e 1 g3 y1)
    as (c4 & g4 & -> & K4 & Y4 & S4 & W4); [rewrite Ey; reflexivity|].
  cbn [bind].
  destruct (yellow_command_limits e 2 g4 y2)
    as (c5 & g5 & -> & K5 & Y5 & S5 & W5); [rewrite Ey; reflexivity|].
  cbn [bind app].
  eexists _, _. split; [reflexivity|]. split; [reflexivity|].
  split; [cbn [map]; now rewrite Y0, Y1, Y2, Y3, Y4, Y5|].
  split; [repeat (apply Forall_cons; [assumption|]); apply Forall_nil|].
  intros Hbox Hd.
  assert (D0 : unit_draws (Rand.np g0)) by (eapply unit_draws_stream; eauto).
  assert (D1 : unit_draws (Rand.np g1)) by (eapply unit_draws_stream; eauto).
  assert (D2 : unit_draws (Rand.np g2)) by (eapply unit_draws_stream; eauto).
  assert (D3 : unit_draws (Rand.np g3)) by (eapply unit_draws_stream; eauto).
  assert (D4 : unit_draws (Rand.np g4)) by (eapply unit_draws_stream; eauto).
  repeat (apply Forall_cons; [auto|]); apply Forall_nil.
Qed.

Lemma get_commands_well_formed_witness :
  exists cmds rand',
    get_commands Examples.env_active_1 Examples.action_kick
                 Examples.rand_halves
      = Some (cmds, Env.with_commands (Some cmds) Examples.env_active_1,
              rand') /\
    List.length cmds = (n_robots_blue + n_robots_yellow)%nat /\
    map Robot.yellow cmds = [false; false; false; true; true; true] /\
    Forall command_ok cmds /\
    (Action.in_box Examples.action_kick ->
     unit_draws (Rand.np Examples.rand_halves) ->
     Forall (fun c => Rabs (Robot.v_theta c) <= max_w) cmds).
Proof.
  apply (get_commands_well_formed Examples.env_active_1 Examples.action_kick
           Examples.rand_halves).
  split; reflexivity.
Defined.

Lemma blue_command_missing e actions i rand :
  nth_error (Frame.robots_blue (Env.frame e)) i = None ->
  blue_command e actions i rand = None.
Proof.
  intros Hr. unfold blue_command.
  destruct (Nat.eqb_spec i (Env.active_robot_idx e)) as [<- | Hne];
    cbn [negb].
  - now rewrite Hr.
  - destruct (action_space_sample _). now rewrite Hr.
Qed.

Lemma yellow_command_missing e i rand :
  nth_error (Frame.robots_yellow (Env.frame e)) i = None ->
  yellow_command e i rand = None.
Proof.
  intros Hr. unfold yellow_command.
  destruct (action_space_sample _). now rewrite Hr.
Qed.

(** The loop over a range returns when the roster has an entry for every
    index of the range, and raises at the first index without one. *)
Lemma for_blue_defined e actions (rs : list Robot.t) :
  Frame.robots_blue (Env.frame e) = rs ->
  forall range rand,
    for_commands (blue_command e actions) range rand <> None <->
    Forall (fun i => (i < List.length rs)%nat) range.
Proof.
  intros Hrs. induction range as [|i range IH]; intros rand;
    cbn [for_commands].
  - split; [constructor|discriminate].
  - destruct (nth_error rs i) as [r|] eqn:Hr.
    + destruct (blue_command_limits e actions i rand r)
        as (c & g & -> & _); [now rewrite Hrs|].
      cbn [bind]. specialize (IH g).
      destruct (for_commands _ range g) as [[cs g']|]; cbn [bind].
      * split; [|discriminate]. intros _. constructor.
        -- apply nth_error_Some. congruence.
        -- apply IH. discriminate.
      * split; [congruence|]. intros H. inversion H; subst.
        exfalso. apply IH; [assumption|reflexivity].
    + rewrite blue_command_missing by (now rewrite Hrs). cbn [bind].
      split; [congruence|]. intros H. inversion H; subst.
      apply nth_error_None in Hr. lia.
Qed.

Lemma for_yellow_defined e (rs : list Robot.t) :
  Frame.robots_yellow (Env.frame e) = rs ->
  forall range rand,
    for_commands (yellow_command e) range rand <> None <->
    Forall (fun i => (i < List.length rs)%nat) range.
Proof.
  intros Hrs. induction range as [|i range IH]; intros rand;
    cbn [for_commands].
  - split; [constructor|discriminate].
  - destruct (nth_error rs i) as [r|] eqn:Hr.
    + destruct (yellow_command_limits e i rand r)
        as (c & g & -> & _); [now rewrite Hrs|].
      cbn [bind]. specialize (IH g).
      destruct (for_commands _ range g) as [[cs g']|]; cbn [bind].
      * split; [|discriminate]. intros _. constructor.
        -- apply nth_error_Some. congruence.
        -- apply IH. discriminate.
      * split; [congruence|]. intros H. inversion H; subst.
        exfalso. apply IH; [assumption|reflexivity].
    + rewrite yellow_command_missing by (now rewrite Hrs). cbn [bind].
      split; [congruence|]. intros H. inversion H; subst.
      apply nth_error_None in Hr. lia.
Qed.

(** X10.  When [_get_commands] raises: exactly when the frame holds fewer
    than three blue robots or fewer than three yellow robots; the policy's
    action, the generators and the active index play no part. *)
Theorem get_commands_fails_iff (e : Env.t) (actions : Action.t)
    (rand : Rand.t) :
  get_commands e actions rand = None <->
  (List.length (Frame.robots_blue (Env.frame e)) < n_robots_blue)%nat
  \/ (List.length (Frame.robots_yellow (Env.frame e)) < n_robots_yellow)%nat.
Proof.
  unfold get_commands.
  pose proof (for_blue_defined e actions _ eq_refl
                (seq 0 n_robots_blue) rand) as Hblue.
  destruct (for_commands (blue_command e actions) _ rand) as [[blues g]|];
    cbn [bind].
  - pose proof (for_yellow_defined e _ eq_refl (seq 0 n_robots_yellow) g)
      as Hyellow.
    assert (Hb : (n_robots_blue
                  <= List.length (Frame.robots_blue (Env.frame e)))%nat).
    { assert (H : Forall (fun i => (i < List.length
                    (Frame.robots_blue (Env.frame e)))%nat)
                    (seq 0 n_robots_blue)) by (apply Hblue; discriminate).
      rewrite Forall_forall in H. specialize (H 2%nat).
      unfold n_robots_blue in *. cbn in H. lia. }
    destruct (for_commands (yellow_command e) _ g) as [[yellows g']|];
      cbn [bind].
    + split; [discriminate|].
      assert (H : Forall (fun i => (i < List.length
                    (Frame.robots_yellow (Env.frame e)))%nat)
                    (seq 0 n_robots_yellow)) by (apply Hyellow; discriminate).
      rewrite Forall_forall in H. specialize (H 2%nat).
      unfold n_robots_yellow in *. cbn in H. lia.
    + split; [intros _|reflexivity]. right.
      destruct (Nat.lt_ge_cases
                  (List.length (Frame.robots_yellow (Env.frame e)))
                  n_robots_yellow) as [Hlt|Hge]; [exact Hlt|].
      exfalso. apply Hyellow; [|reflexivity].
      rewrite Forall_forall. intros i Hi. apply in_seq in Hi. lia.
  - split; [intros _|reflexivity]. left.
    destruct (Nat.lt_ge_cases
                (List.length (Frame.robots_blue (Env.frame e)))
                n_robots_blue) as [Hlt|Hge]; [exact Hlt|].
    exfalso. apply Hblue; [|reflexivity].
    rewrite Forall_forall. intros i Hi. apply in_seq in Hi. lia.
Qed.

(** One blue command under two policy actions: the generators are left
    in the same state, and a robot that is not the active one gets the
    same velocities. *)
Lemma blue_command_policy e a a' i rand c g c' g' :
  blue_command e a i rand = Some (c, g) ->
  blue_command e a' i rand = Some (c', g') ->
  g = g' /\
  (i <> Env.active_robot_idx e ->
   Robot.v_x c = Robot.v_x c' /\ Robot.v_y c = Robot.v_y c' /\
   Robot.v_theta c = Robot.v_theta c' /\ Robot.id c = Robot.id c').
Proof.
  unfold blue_command.
  destruct (Nat.eqb_spec i (Env.active_robot_idx e)) as [<- | Hne];
    cbn [negb].
  - destruct (nth_error _ i) as [r|]; cbn [bind]; [|discriminate].
    destruct (convert_actions a _) as [[[vx vy] vt]|]; cbn [bind];
      [|discriminate].
    destruct (convert_actions a' _) as [[[vx' vy'] vt']|]; cbn [bind];
      [|discriminate].
    unfold Rng.uniform, Rng.random.
    intros H H'. injection H as <- <-. injection H' as <- <-.
    split; [reflexivity|]. intros Hc. now elim Hc.
  - destruct (action_space_sample _) as [random_actions npg].
    destruct (nth_error _ i) as [r|]; cbn [bind]; [|discriminate].
    destruct (convert_actions random_actions _) as [[[vx vy] vt]|];
      cbn [bind]; [|discriminate].
    unfold Rng.uniform, Rng.random.
    intros H H'. injection H as <- <-. injection H' as <- <-.
    split; [reflexivity|]. intros _. repeat split.
Qed.

(** X11.  What the policy's action cannot reach: under two policy actions
    and the same generators, [_get_commands] leaves the generators in the
    same state, returns the same three yellow commands, and gives every
    blue robot other than the active one the same velocities and
    identity. *)
Theorem policy_reaches_active_only (e : Env.t) (a a' : Action.t)
    (rand : Rand.t) (cmds cmds' : list Robot.t) (e1 e1' : Env.t)
    (rand1 rand1' : Rand.t) :
  get_commands e a rand = Some (cmds, e1, rand1) ->
  get_commands e a' rand = Some (cmds', e1', rand1') ->
  rand1 = rand1' /\
  skipn n_robots_blue cmds = skipn n_robots_blue cmds' /\
  forall i c c',
    (i < n_robots_blue)%nat -> i <> Env.active_robot_idx e ->
    nth_error cmds i = Some c -> nth_error cmds' i = Some c' ->
    Robot.v_x c = Robot.v_x c' /\ Robot.v_y c = Robot.v_y c' /\
    Robot.v_theta c = Robot.v_theta c' /\ Robot.id c = Robot.id c'.
Proof.
  unfold get_commands. cbn [seq n_robots_blue n_robots_yellow for_commands].
  destruct (blue_command e a 0 rand) as [[c0 g0]|] eqn:B0; cbn [bind];
    [|discriminate].
  destruct (blue_command e a' 0 rand) as [[c0' g0']|] eqn:B0'; cbn [bind];
    [|discriminate].
  destruct (blue_command_policy _ _ _ _ _ _ _ _ _ B0 B0') as [<- P0].
  destruct (blue_command e a 1 g0) as [[c1 g1]|] eqn:B1; cbn [bind];
    [|discriminate].
  destruct (blue_command e a' 1 g0) as [[c1' g1']|] eqn:B1'; cbn [bind];
    [|discriminate].
  destruct (blue_command_policy _ _ _ _ _ _ _ _ _ B1 B1') as [<- P1].
  destruct (blue_command e a 2 g1) as [[c2 g2]|] eqn:B2; cbn [bind];
    [|discriminate].
  destruct (blue_command e a' 2 g1) as [[c2' g2']|] eqn:B2'; cbn [bind];
    [|discriminate].
  destruct (blue_command_policy _ _ _ _ _ _ _ _ _ B2 B2') as [<- P2].
  destruct (yellow_command e 0 g2) as [[c3 g3]|]; cbn [bind];
    [|discriminate].
  destruct (yellow_command e 1 g3) as [[c4 g4]|]; cbn [bind];
    [|discriminate].
  destruct (yellow_command e 2 g4) as [[c5 g5]|]; cbn [bind];
    [|discriminate].
  cbn [app]. intros H H'. injection H as <- _ <-. injection H' as <- _ <-.
  split; [reflexivity|]. split; [reflexivity|].
  intros i c c' Hi Hne Hc Hc'. unfold n_robots_blue in Hi.
  destruct i as [|[|[|i]]]; [| | |lia]; cbn [nth_error] in Hc, Hc';
    injection Hc as <-; injection Hc' as <-; auto.
Qed.

Lemma policy_reaches_active_only_witness :
  exists cmds cmds' e1 e1' rand1 rand1',
    get_commands Examples.env_active_1 Examples.action_kick
                 Examples.rand_halves = Some (cmds, e1, rand1) /\
    get_commands Examples.env_active_1 Examples.action_no_kick
                 Examples.rand_halves = Some (cmds', e1', rand1') /\
    rand1 = rand1' /\
    skipn n_robots_blue cmds = skipn n_robots_blue cmds' /\
    forall i c c',
      (i < n_robots_blue)%nat ->
      i <> Env.active_robot_idx Examples.env_active_1 ->
      nth_error cmds i = Some c -> nth_error cmds' i = Some c' ->
      Robot.v_x c = Robot.v_x c' /\ Robot.v_y c = Robot.v_y c' /\
      Robot.v_theta c = Robot.v_theta c' /\ Robot.id c = Robot.id c'.
Proof.
  destruct (get_commands_defined Examples.env_active_1 Examples.action_kick
              Examples.rand_halves) as (cmds & rand1 & Hrun & _);
    [split; reflexivity|].
  destruct (get_commands_defined Examples.env_active_1
              Examples.action_no_kick Examples.rand_halves)
    as (cmds' & rand1' & Hrun' & _); [split; reflexivity|].
  eexists cmds, cmds', _, _, rand1, rand1'.
  split; [exact Hrun|]. split; [exact Hrun'|].
  exact (policy_reaches_active_only _ _ _ _ _ _ _ _ _ _ Hrun Hrun').
Defined.

(** ** Observation *)

Lemma take_three rs l :
  take_robots 3 rs = Some l ->
  exists r0 r1 r2 rest, rs = r0 :: r1 :: r2 :: rest /\ l = [r0; r1; r2].
Proof.
  destruct rs as [|r0 [|r1 [|r2 rest]]]; cbn; try discriminate.
  intros H; injection H as <-. now exists r0, r1, r2, rest.
Qed.

(** X12.  The observation vector: whenever the encoder returns, the
    vector has [n_obs] = 40 entries, the size [__init__] gives the
    observation space; for each blue robot i, entries 6 + 7i and 7 + 7i
    are the sine and the cosine of its heading, a point of the unit
    circle. *)
Theorem observation_layout (norm_pos norm_v norm_w : R -> R) (fuel : nat)
    (e : Env.t) (obs : list R) (e' : Env.t) :
  frame_to_observations norm_pos norm_v norm_w fuel e = Some (obs, e') ->
  List.length obs = n_obs /\ n_obs = 40%nat /\
  forall i r,
    (i < n_robots_blue)%nat ->
    nth_error (Frame.robots_blue (Env.frame e)) i = Some r ->
    exists s c,
      nth_error obs (6 + 7 * i) = Some s /\
      nth_error obs (7 + 7 * i) = Some c /\
      s = sin (deg2rad (Robot.theta r)) /\
      c = cos (deg2rad (Robot.theta r)) /\
      s * s + c * c = 1.
Proof.
  unfold frame_to_observations.
  destruct (take_robots _ (Frame.robots_blue _)) as [blues|] eqn:Hb;
    cbn [bind]; [|discriminate].
  destruct (take_robots _ (Frame.robots_yellow _)) as [yellows|] eqn:Hy;
    cbn [bind]; [|discriminate].
  destruct (get_nearest_robot_idx _ _ _ blue) as [[nb nbd]|]; cbn [bind];
    [|discriminate].
  destruct (get_nearest_robot_idx _ _ _ yellow) as [[ny nyd]|]; cbn [bind];
    [|discriminate].
  destruct (match Env.commands _ with Some _ => _ | None => _ end)
    as [e1|]; cbn [bind]; [|discriminate].
  intros H; injection H as <- _.
  apply take_three in Hb. destruct Hb as (b0 & b1 & b2 & brest & Eb & ->).
  apply take_three in Hy. destruct Hy as (y0 & y1 & y2 & yrest & _ & ->).
  split; [reflexivity|]. split; [reflexivity|].
  intros i r Hi Hr. rewrite Eb in Hr. unfold n_robots_blue in Hi.
  destruct i as [|[|[|i]]]; [| | |lia]; cbn [nth_error] in Hr;
    injection Hr as <-; eexists _, _;
    (split; [reflexivity|]); (split; [reflexivity|]);
    (split; [reflexivity|]); (split; [reflexivity|]);
    match goal with
    | |- sin ?a * sin ?a + cos ?a * cos ?a = 1 =>
        pose proof (sin2_cos2 a) as Hu; unfold Rsqr in Hu; exact Hu
    end.
Qed.

Lemma observation_layout_witness :
  exists obs e',
    frame_to_observations Examples.norm_id Examples.norm_id Examples.norm_id
      0 Examples.env_axis = Some (obs, e') /\
    List.length obs = n_obs /\ n_obs = 40%nat /\
    forall i r,
      (i < n_robots_blue)%nat ->
      nth_error (Frame.robots_blue (Env.frame Examples.env_axis)) i
        = Some r ->
      exists s c,
        nth_error obs (6 + 7 * i) = Some s /\
        nth_error obs (7 + 7 * i) = Some c /\
        s = sin (deg2rad (Robot.theta r)) /\
        c = cos (deg2rad (Robot.theta r)) /\
        s * s + c * c = 1.
Proof.
  destruct (axis_observe 0 Examples.env_axis eq_refl) as (obs & Hrun).
  eexists _, _. split; [exact Hrun|].
  exact (observation_layout _ _ _ _ _ _ _ Hrun).
Defined.

Lemma possession_update_idx fuel cmds nb nbd ny nyd e e' :
  possession_update fuel cmds nb nbd ny nyd e = Some e' ->
  Env.last_possession e' = Env.last_possession e /\
  Env.active_robot_idx e' = Env.active_robot_idx e /\
  Env.commands e' = Env.commands e /\
  (Env.possession_robot_idx e' = Env.possession_robot_idx e
   \/ Env.possession_robot_idx e' = Z.of_nat nb
   \/ Env.possession_robot_idx e' = (3 + Z.of_nat ny)%Z).
Proof.
  unfold possession_update.
  repeat match goal with
         | |- context [if ?b then _ else _] => destruct b
         | |- context [bind ?m _] => destruct m; cbn [bind]
         end;
    try discriminate;
    match goal with
    | |- Some ?x = Some ?y -> _ =>
        intros H; assert (He : y = x) by congruence; subst y; clear H
    end;
    cbv [Env.possession_robot_idx Env.with_possession_robot_idx
         Env.last_possession Env.active_robot_idx Env.commands];
    repeat split; tauto.
Qed.

(** X13.  The bookkeeping of the encoder: whenever it returns, the
    previous possession index is kept in [last_possession], the active
    robot is a blue robot of the frame, the possession index is -1, or
    the active robot's index, or 3 plus the index of a yellow robot of the
    frame, and the field, the frames, [done_limit], the command set and
    the diagnostics mapping are left as they were. *)
Theorem observation_bookkeeping (norm_pos norm_v norm_w : R -> R)
    (fuel : nat) (e : Env.t) (obs : list R) (e' : Env.t) :
  frame_to_observations norm_pos norm_v norm_w fuel e = Some (obs, e') ->
  Env.last_possession e' = Env.possession_robot_idx e /\
  (Env.active_robot_idx e'
   < List.length (Frame.robots_blue (Env.frame e)))%nat /\
  (Env.possession_robot_idx e' = (-1)%Z
   \/ Env.possession_robot_idx e' = Z.of_nat (Env.active_robot_idx e')
   \/ exists ny,
        (ny < List.length (Frame.robots_yellow (Env.frame e)))%nat /\
        Env.possession_robot_idx e' = (3 + Z.of_nat ny)%Z) /\
  Env.field e' = Env.field e /\ Env.frame e' = Env.frame e /\
  Env.last_frame e' = Env.last_frame e /\
  Env.done_limit e' = Env.done_limit e /\
  Env.commands e' = Env.commands e /\
  Env.reward_shaping_total e' = Env.reward_shaping_total e.
Proof.
  unfold frame_to_observations.
  destruct (take_robots _ _); cbn [bind]; [|discriminate].
  destruct (take_robots _ _); cbn [bind]; [|discriminate].
  destruct (get_nearest_robot_idx _ _ _ blue) as [[nb nbd]|] eqn:Hnb;
    cbn [bind]; [|discriminate].
  destruct (get_nearest_robot_idx _ _ _ yellow) as [[ny nyd]|] eqn:Hny;
    cbn [bind]; [|discriminate].
  apply get_nearest_robot_idx_bound in Hnb, Hny. cbn [roster] in Hnb, Hny.
  cbn [Env.commands Env.with_possession_robot_idx Env.with_active_robot_idx
       Env.with_last_possession].
  destruct (Env.commands e) as [cmds|] eqn:Hcmd; cbn [bind].
  - destruct (possession_update _ _ _ _ _ _ _) as [e1|] eqn:Hp; cbn [bind];
      [|discriminate].
    take_env.
    pose proof (possession_update_keeps _ _ _ _ _ _ _ _ Hp)
      as (Ht & Hf & Hfr & Hd & Hl).
    pose proof (possession_update_idx _ _ _ _ _ _ _ _ Hp)
      as (Hlp & Ha & Hc & Hi).
    rewrite Hlp, Ha, Hc, Ht, Hf, Hfr, Hd, Hl. destruct e; cbn in *.
    repeat split; try assumption.
    destruct Hi as [ Hi | [ Hi | Hi ] ]; rewrite Hi;
      [now left|now right; left|].
    right; right. exists ny. split; [assumption|reflexivity].
  - take_env. destruct e; cbn in *. repeat split; try assumption; tauto.
Qed.

Lemma observation_bookkeeping_witness :
  exists obs e',
    frame_to_observations Examples.norm_id Examples.norm_id Examples.norm_id
      0 Examples.env_axis = Some (obs, e') /\
    Env.last_possession e' = Env.possession_robot_idx Examples.env_axis /\
    (Env.active_robot_idx e'
     < List.length (Frame.robots_blue (Env.frame Examples.env_axis)))%nat /\
    (Env.possession_robot_idx e' = (-1)%Z
     \/ Env.possession_robot_idx e' = Z.of_nat (Env.active_robot_idx e')
     \/ exists ny,
          (ny < List.length
                  (Frame.robots_yellow (Env.frame Examples.env_axis)))%nat /\
          Env.possession_robot_idx e' = (3 + Z.of_nat ny)%Z) /\
    Env.field e' = Env.field Examples.env_axis /\
    Env.frame e' = Env.frame Examples.env_axis /\
    Env.last_frame e' = Env.last_frame Examples.env_axis /\
    Env.done_limit e' = Env.done_limit Examples.env_axis /\
    Env.commands e' = Env.commands Examples.env_axis /\
    Env.reward_shaping_total e'
      = Env.reward_shaping_total Examples.env_axis.
Proof.
  destruct (axis_observe 0 Examples.env_axis eq_refl) as (obs & Hrun).
  eexists _, _. split; [exact Hrun|].
  exact (observation_bookkeeping _ _ _ _ _ _ _ Hrun).
Defined.

(** ** Facing test *)

(** [a'] is [a] brought into [-PI, PI] by whole turns. *)
Lemma wrap_up_spec fuel : forall a a',
  wrap_up fuel a = Some a' ->
  - PI <= a' /\ (a' = a \/ (a < - PI /\ a' < PI)) /\
  exists k : Z, a' = a + IZR k * (2 * PI).
Proof.
  pose proof PI_RGT_0 as Hpi.
  induction fuel as [|fuel IH]; intros a a'; cbn [wrap_up];
    destruct (Rltb_spec a (- PI)) as [Hlt|Hge]; try discriminate.
  - intros H; injection H as <-. repeat split; [lra|now left|].
    exists 0%Z. lra.
  - intros H. apply IH in H. destruct H as (Hlo & Hcase & k & Hk).
    split; [exact Hlo|]. split.
    + right. split; [exact Hlt|]. destruct Hcase as [->|[_ Hc]]; lra.
    + exists (k + 1)%Z. rewrite plus_IZR. lra.
  - intros H; injection H as <-. repeat split; [lra|now left|].
    exists 0%Z. lra.
Qed.

Lemma wrap_down_spec fuel : forall a a',
  wrap_down fuel a = Some a' ->
  a' <= PI /\ (a' = a \/ (a > PI /\ a' > - PI)) /\
  exists k : Z, a' = a + IZR k * (2 * PI).
Proof.
  pose proof PI_RGT_0 as Hpi.
  induction fuel as [|fuel IH]; intros a a'; cbn [wrap_down]; unfold Rgtb;
    destruct (Rltb_spec PI a) as [Hlt|Hge]; try discriminate.
  - intros H; injection H as <-. repeat split; [lra|now left|].
    exists 0%Z. lra.
  - intros H. apply IH in H. destruct H as (Hlo & Hcase & k & Hk).
    split; [exact Hlo|]. split.
    + right. split; [exact Hlt|]. destruct Hcase as [->|[_ Hc]]; lra.
    + exists (k - 1)%Z. rewrite minus_IZR. lra.
  - intros H; injection H as <-. repeat split; [lra|now left|].
    exists 0%Z. lra.
Qed.

Lemma wrap_up_more fuel : forall a a',
  wrap_up fuel a = Some a' -> wrap_up (S fuel) a = Some a'.
Proof.
  induction fuel as [|fuel IH]; intros a a'.
  - cbn [wrap_up]. destruct (Rltb a (- PI)); [discriminate|trivial].
  - intros H. cbn [wrap_up] in H. change (wrap_up (S (S fuel)) a)
      with (if Rltb a (- PI) then wrap_up (S fuel) (a + 2 * PI) else Some a).
    destruct (Rltb a (- PI)); [now apply IH|exact H].
Qed.

Lemma wrap_down_more fuel : forall a a',
  wrap_down fuel a = Some a' -> wrap_down (S fuel) a = Some a'.
Proof.
  induction fuel as [|fuel IH]; intros a a'.
  - cbn [wrap_down]. destruct (Rgtb a PI); [discriminate|trivial].
  - intros H. cbn [wrap_down] in H. change (wrap_down (S (S fuel)) a)
      with (if Rgtb a PI then wrap_down (S fuel) (a - 2 * PI) else Some a).
    destruct (Rgtb a PI); [now apply IH|exact H].
Qed.

Lemma wrap_up_le fuel fuel' a a' :
  (fuel <= fuel')%nat -> wrap_up fuel a = Some a' ->
  wrap_up fuel' a = Some a'.
Proof.
  induction 1 as [|m Hle IH]; [trivial|].
  intros H. apply wrap_up_more, IH, H.
Qed.

Lemma wrap_down_le fuel fuel' a a' :
  (fuel <= fuel')%nat -> wrap_down fuel a = Some a' ->
  wrap_down fuel' a = Some a'.
Proof.
  induction 1 as [|m Hle IH]; [trivial|].
  intros H. apply wrap_down_more, IH, H.
Qed.

Lemma wrap_up_enough n : forall a,
  - PI - INR n * (2 * PI) <= a -> exists a', wrap_up n a = Some a'.
Proof.
  pose proof PI_RGT_0 as Hpi.
  induction n as [|n IH]; intros a Ha; cbn [wrap_up].
  - cbn [INR] in Ha. rewrite Rltb_false by lra. now exists a.
  - destruct (Rltb a (- PI)); [|now exists a].
    apply IH. rewrite S_INR in Ha. lra.
Qed.

Lemma wrap_down_enough n : forall a,
  a <= PI + INR n * (2 * PI) -> exists a', wrap_down n a = Some a'.
Proof.
  pose proof PI_RGT_0 as Hpi.
  induction n as [|n IH]; intros a Ha; cbn [wrap_down]; unfold Rgtb.
  - cbn [INR] in Ha. rewrite Rltb_false by lra. now exists a.
  - destruct (Rltb PI a); [|now exists a].
    apply IH. rewrite S_INR in Ha. lra.
Qed.

(** The two loops in a row, with fuel to spare. *)
Lemma wrap_total a :
  exists fuel0 a',
    forall fuel, (fuel0 <= fuel)%nat ->
      (a1 <- wrap_up fuel a ;; wrap_down fuel a1) = Some a'.
Proof.
  pose proof PI_RGT_0 as Hpi.
  destruct (INR_archimed (2 * PI) (- PI - a)) as [n Hn]; [lra|].
  destruct (wrap_up_enough n a) as [a1 H1]; [lra|].
  destruct (INR_archimed (2 * PI) (a1 - PI)) as [m Hm]; [lra|].
  destruct (wrap_down_enough m a1) as [a2 H2]; [lra|].
  exists (Nat.max n m), a2. intros fuel Hfuel.
  rewrite (wrap_up_le n fuel a a1) by (try assumption; lia). cbn [bind].
  apply (wrap_down_le m fuel); [lia|assumption].
Qed.

Lemma wrap_result fuel a a' :
  (a1 <- wrap_up fuel a ;; wrap_down fuel a1) = Some a' ->
  - PI <= a' <= PI /\ exists k : Z, a' = a + IZR k * (2 * PI).
Proof.
  destruct (wrap_up fuel a) as [a1|] eqn:H1; cbn [bind]; [|discriminate].
  intros H2.
  apply wrap_up_spec in H1. destruct H1 as (Hlo & _ & k1 & Hk1).
  apply wrap_down_spec in H2. destruct H2 as (Hhi & Hcase & k2 & Hk2).
  split.
  - destruct Hcase as [->|[_ Hc]]; lra.
  - exists (k1 + k2)%Z. rewrite plus_IZR. lra.
Qed.

Lemma wrap_det fuel fuel' a a1 a2 :
  (x <- wrap_up fuel a ;; wrap_down fuel x) = Some a1 ->
  (x <- wrap_up fuel' a ;; wrap_down fuel' x) = Some a2 ->
  a1 = a2.
Proof.
  destruct (wrap_up fuel a) as [u|] eqn:U; cbn [bind]; [|discriminate].
  destruct (wrap_up fuel' a) as [u'|] eqn:U'; cbn [bind]; [|discriminate].
  intros D D'.
  apply (wrap_up_le fuel (Nat.max fuel fuel')) in U; [|lia].
  apply (wrap_up_le fuel' (Nat.max fuel fuel')) in U'; [|lia].
  assert (u = u') by congruence. subst u'.
  apply (wrap_down_le fuel (Nat.max fuel fuel')) in D; [|lia].
  apply (wrap_down_le fuel' (Nat.max fuel fuel')) in D'; [|lia].
  congruence.
Qed.

Lemma alignment_unfold fuel Xr Yr theta Xb Yb :
  alignment fuel Xr Yr theta Xb Yb
  = (a <- (a1 <- wrap_up fuel (atan2 (Yb - Yr) (Xb - Xr) - theta) ;;
           wrap_down fuel a1) ;;
     Some ((PI - Rabs a - 0) / (PI - 0))).
Proof.
  unfold alignment. destruct (wrap_up fuel _); cbn [bind]; reflexivity.
Qed.

Lemma score_range a : - PI <= a <= PI -> 0 <= (PI - Rabs a - 0) / (PI - 0) <= 1.
Proof.
  pose proof PI_RGT_0 as Hpi. intros Ha.
  assert (Habs : 0 <= Rabs a <= PI)
    by (split; [apply Rabs_pos|apply Rabs_le; lra]).
  replace ((PI - Rabs a - 0) / (PI - 0)) with (1 - Rabs a * / PI)
    by (field; lra).
  assert (Hinv : 0 < / PI) by (apply Rinv_0_lt_compat; lra).
  assert (Hone : PI * / PI = 1) by (apply Rinv_r; lra).
  split; nra.
Qed.

(** X14.  The alignment score: for every robot position, heading and
    ball position the two wrapping loops come to an end, so with enough
    fuel the score is returned; it lies in [0, 1], and no amount of fuel
    returns another value. *)
Theorem alignment_total (Xr Yr theta Xb Yb : R) :
  exists fuel0 v,
    0 <= v <= 1 /\
    (forall fuel, (fuel0 <= fuel)%nat ->
       alignment fuel Xr Yr theta Xb Yb = Some v) /\
    (forall fuel v', alignment fuel Xr Yr theta Xb Yb = Some v' -> v' = v).
Proof.
  destruct (wrap_total (atan2 (Yb - Yr) (Xb - Xr) - theta))
    as (fuel0 & a & Hrun).
  exists fuel0, ((PI - Rabs a - 0) / (PI - 0)).
  pose proof (Hrun fuel0 (Nat.le_refl _)) as H0.
  split; [|split].
  - apply score_range. now apply wrap_result in H0.
  - intros fuel Hfuel. rewrite alignment_unfold, (Hrun fuel Hfuel).
    reflexivity.
  - intros fuel v'. rewrite alignment_unfold.
    destruct (a1 <- wrap_up fuel _ ;; wrap_down fuel a1) as [a'|] eqn:H';
      cbn [bind]; [|discriminate].
    intros H; injection H as <-.
    now rewrite (wrap_det _ _ _ _ _ H' H0).
Qed.

Lemma score_threshold a :
  Rleb 0.9 ((PI - Rabs a - 0) / (PI - 0)) = true <-> Rabs a <= PI / 10.
Proof.
  pose proof PI_RGT_0 as Hpi.
  replace ((PI - Rabs a - 0) / (PI - 0)) with (1 - Rabs a * / PI)
    by (field; lra).
  assert (Hinv : 0 < / PI) by (apply Rinv_0_lt_compat; lra).
  assert (Hone : PI * / PI = 1) by (apply Rinv_r; lra).
  destruct (Rleb_spec 0.9 (1 - Rabs a * / PI)) as [H|H].
  - split; [intros _|reflexivity].
    assert (Rabs a * / PI * PI <= 0.1 * PI) by nra.
    replace (Rabs a * / PI * PI) with (Rabs a * (PI * / PI)) in * by ring.
    rewrite Hone in *. lra.
  - split; [discriminate|]. intros Ha. exfalso. apply H.
    assert (Rabs a * / PI <= PI / 10 * / PI)
      by (apply Rmult_le_compat_r; lra).
    replace (PI / 10 * / PI) with ((PI * / PI) / 10) in * by (field; lra).
    rewrite Hone in *. lra.
Qed.

Lemma toward_run_yellow0 (fuel : nat) :
  is_toward_ball fuel Examples.frame_yellow_near yellow 0 = Some true.
Proof.
  pose proof PI_RGT_0 as Hpi.
  unfold is_toward_ball. cbn [roster Examples.frame_yellow_near
    Frame.robots_yellow nth_error bind].
  rewrite alignment_no_wrap; cbn; unfold deg2rad;
    rewrite atan2_east by lra; [|lra].
  cbn [bind]. f_equal. apply Rleb_true.
  replace (0 - 0 * (PI / 180)) with 0 by lra.
  rewrite Rabs_R0.
  replace ((PI - 0 - 0) / (PI - 0)) with 1 by (field; lra). lra.
Qed.

(** X15.  The facing test: whenever [__is_toward_ball] returns, its
    answer is [True] exactly when the bearing of the ball from the robot
    less the robot's heading, brought into [-PI, PI] by whole turns, is at
    most PI/10 (18 degrees) in absolute value. *)
Theorem is_toward_ball_threshold (fuel : nat) (f : Frame.t) (team : Team)
    (idx : nat) (b : bool) :
  is_toward_ball fuel f team idx = Some b ->
  exists r a (k : Z),
    nth_error (roster f team) idx = Some r /\
    a = atan2 (Ball.y (Frame.ball f) - Robot.y r)
              (Ball.x (Frame.ball f) - Robot.x r)
        - deg2rad (Robot.theta r) + IZR k * (2 * PI) /\
    - PI <= a <= PI /\
    (b = true <-> Rabs a <= PI / 10).
Proof.
  unfold is_toward_ball.
  destruct (nth_error (roster f team) idx) as [r|]; cbn [bind];
    [|discriminate].
  rewrite alignment_unfold.
  destruct (a1 <- wrap_up fuel _ ;; wrap_down fuel a1) as [a|] eqn:Hw;
    cbn [bind]; [|discriminate].
  intros H; injection H as <-.
  apply wrap_result in Hw. destruct Hw as (Hrange & k & Hk).
  exists r, a, k. split; [reflexivity|]. split; [exact Hk|].
  split; [exact Hrange|]. apply score_threshold.
Qed.

Lemma is_toward_ball_threshold_witness :
  exists r a (k : Z),
    nth_error (roster Examples.frame_yellow_near yellow) 0 = Some r /\
    a = atan2 (Ball.y (Frame.ball Examples.frame_yellow_near) - Robot.y r)
              (Ball.x (Frame.ball Examples.frame_yellow_near) - Robot.x r)
        - deg2rad (Robot.theta r) + IZR k * (2 * PI) /\
    - PI <= a <= PI /\
    (true = true <-> Rabs a <= PI / 10).
Proof.
  exact (is_toward_ball_threshold 0 Examples.frame_yellow_near yellow 0 true
           (toward_run_yellow0 0)).
Defined.

(** ** Reward terms the engine does not call *)

(** X16.  [__towards_ball_rw] against the facing test: whenever it
    returns a value, the value lies in [0, 0.9] or is 1, and the facing
    test of blue robot 0 answers [True] exactly when the value is at
    least 0.9. *)
Theorem towards_ball_rw_facing (fuel : nat) (e : Env.t) (v : R) :
  towards_ball_rw fuel e = Some v ->
  (0 <= v <= 0.9 \/ v = 1) /\
  is_toward_ball fuel (Env.frame e) blue 0 = Some (Rleb 0.9 v).
Proof.
  unfold towards_ball_rw, is_toward_ball. cbn [roster].
  destruct (nth_error (Frame.robots_blue (Env.frame e)) 0) as [r|];
    cbn [bind]; [|discriminate].
  destruct (alignment fuel _ _ _ _ _) as [s|] eqn:Ha; cbn [bind];
    [|discriminate].
  assert (Hs : 0 <= s <= 1).
  { rewrite alignment_unfold in Ha.
    destruct (a1 <- wrap_up fuel _ ;; wrap_down fuel a1) as [a|] eqn:Hw;
      cbn [bind] in Ha; [|discriminate].
    injection Ha as <-. apply score_range. now apply wrap_result in Hw. }
  unfold Rgtb. destruct (Rltb_spec 0.9 s) as [Hgt|Hle];
    intros H; injection H as <-.
  - split; [now right|]. f_equal.
    rewrite !Rleb_true by lra. reflexivity.
  - split; [left; lra|reflexivity].
Qed.

Lemma towards_ball_rw_facing_witness :
  exists v,
    towards_ball_rw 0 Examples.env_facing = Some v /\
    (0 <= v <= 0.9 \/ v = 1) /\
    is_toward_ball 0 (Env.frame Examples.env_facing) blue 0
      = Some (Rleb 0.9 v).
Proof.
  assert (Hrun : exists v, towards_ball_rw 0 Examples.env_facing = Some v).
  { pose proof PI_RGT_0 as Hpi. unfold towards_ball_rw.
    cbn [Examples.env_facing Examples.env_of Examples.frame_facing
         Env.frame Frame.robots_blue nth_error bind].
    rewrite alignment_no_wrap; cbn; unfold deg2rad;
      rewrite atan2_east by lra; [|lra].
    cbn [bind]. eexists. reflexivity. }
  destruct Hrun as (v & Hrun). exists v. split; [exact Hrun|].
  exact (towards_ball_rw_facing 0 Examples.env_facing v Hrun).
Defined.

(** X17.  [__move_to_ball_rw]: whenever it returns, its value lies in
    [-1, 1], it is the same whatever the ball of the current frame is
    (both distances are taken to the ball of the previous frame), and it
    is 0 when blue robot 0 stands where it stood in the previous frame. *)
Theorem move_to_ball_rw_ignores_ball (e : Env.t) (v : R) :
  move_to_ball_rw e = Some v ->
  -1 <= v <= 1 /\
  (forall ball',
     move_to_ball_rw
       (Env.with_frame
          (Frame.mk ball' (Frame.robots_blue (Env.frame e))
                    (Frame.robots_yellow (Env.frame e))) e) = Some v) /\
  (forall lf last_robot robot,
     Env.last_frame e = Some lf ->
     nth_error (Frame.robots_blue lf) 0 = Some last_robot ->
     nth_error (Frame.robots_blue (Env.frame e)) 0 = Some robot ->
     Robot.x last_robot = Robot.x robot ->
     Robot.y last_robot = Robot.y robot -> v = 0).
Proof.
  unfold move_to_ball_rw.
  cbn [Env.last_frame Env.with_frame Env.frame Frame.robots_blue].
  destruct (Env.last_frame e) as [lf|]; cbn [bind]; [|discriminate].
  destruct (nth_error (Frame.robots_blue lf) 0) as [lr|] eqn:Elr;
    cbn [bind]; [|discriminate].
  destruct (nth_error (Frame.robots_blue (Env.frame e)) 0) as [r|] eqn:Er;
    cbn [bind]; [|discriminate].
  intros H; injection H as <-.
  split; [apply clip_range|]. split; [reflexivity|].
  intros lf' lr' r' Hlf Hlr Hr Hx Hy.
  injection Hlf as <-.
  assert (lr' = lr) by congruence. assert (r' = r) by congruence.
  subst lr' r'.
  rewrite Hx, Hy. unfold clip. minmax.
Qed.

Lemma move_to_ball_rw_ignores_ball_witness :
  exists v,
    move_to_ball_rw Examples.env_facing = Some v /\
    -1 <= v <= 1 /\
    (forall ball',
       move_to_ball_rw
         (Env.with_frame
            (Frame.mk ball'
               (Frame.robots_blue (Env.frame Examples.env_facing))
               (Frame.robots_yellow (Env.frame Examples.env_facing)))
            Examples.env_facing) = Some v) /\
    (forall lf last_robot robot,
       Env.last_frame Examples.env_facing = Some lf ->
       nth_error (Frame.robots_blue lf) 0 = Some last_robot ->
       nth_error (Frame.robots_blue (Env.frame Examples.env_facing)) 0
         = Some robot ->
       Robot.x last_robot = Robot.x robot ->
       Robot.y last_robot = Robot.y robot -> v = 0).
Proof.
  eexists. split; [reflexivity|].
  apply (move_to_ball_rw_ignores_ball Examples.env_facing). reflexivity.
Defined.

Lemma alignment_score fuel Xr Yr theta Xb Yb v :
  alignment fuel Xr Yr theta Xb Yb = Some v -> 0 <= v <= 1.
Proof.
  rewrite alignment_unfold.
  destruct (a1 <- wrap_up fuel _ ;; wrap_down fuel a1) as [a|] eqn:Hw;
    cbn [bind]; [|discriminate].
  intros H; injection H as <-. apply score_range.
  now apply wrap_result in Hw.
Qed.

(** X18.  [__robot_orientation_rw] over two calls, the value kept by the
    first handed to the second: the kept values lie in [0, 1], the two
    results add up to the last kept value less the value the first call
    started from, and the second result lies in [-1, 1]. *)
Theorem robot_orientation_rw_telescopes (fuel fuel' : nat) (e1 e2 : Env.t)
    (v0 d1 v1 d2 v2 : R) :
  robot_orientation_rw fuel e1 v0 = Some (d1, v1) ->
  robot_orientation_rw fuel' e2 v1 = Some (d2, v2) ->
  0 <= v1 <= 1 /\ 0 <= v2 <= 1 /\
  d1 + d2 = v2 - v0 /\ -1 <= d2 <= 1.
Proof.
  unfold robot_orientation_rw.
  destruct (nth_error (Frame.robots_blue (Env.frame e1)) 0) as [r1|];
    cbn [bind]; [|discriminate].
  destruct (alignment fuel _ _ _ _ _) as [s1|] eqn:H1; cbn [bind];
    [|discriminate].
  intros H; injection H as <- <-.
  destruct (nth_error (Frame.robots_blue (Env.frame e2)) 0) as [r2|];
    cbn [bind]; [|discriminate].
  destruct (alignment fuel' _ _ _ _ _) as [s2|] eqn:H2; cbn [bind];
    [|discriminate].
  intros H; injection H as <- <-.
  apply alignment_score in H1, H2. repeat split; lra.
Qed.

Lemma orientation_run (v0 : R) :
  exists v, robot_orientation_rw 0 Examples.env_facing v0 = Some (v - v0, v).
Proof.
  pose proof PI_RGT_0 as Hpi. unfold robot_orientation_rw.
  cbn [Examples.env_facing Examples.env_of Examples.frame_facing
       Env.frame Frame.robots_blue nth_error bind].
  rewrite alignment_no_wrap; cbn; unfold deg2rad;
    rewrite atan2_east by lra; [|lra].
  cbn [bind]. eexists. reflexivity.
Qed.

Lemma robot_orientation_rw_telescopes_witness :
  exists d1 v1 d2 v2,
    robot_orientation_rw 0 Examples.env_facing 0 = Some (d1, v1) /\
    robot_orientation_rw 0 Examples.env_facing v1 = Some (d2, v2) /\
    0 <= v1 <= 1 /\ 0 <= v2 <= 1 /\
    d1 + d2 = v2 - 0 /\ -1 <= d2 <= 1.
Proof.
  destruct (orientation_run 0) as (v1 & H1).
  destruct (orientation_run v1) as (v2 & H2).
  exists (v1 - 0), v1, (v2 - v1), v2.
  split; [exact H1|]. split; [exact H2|].
  exact (robot_orientation_rw_telescopes 0 0 _ _ _ _ _ _ _ H1 H2).
Defined.

(** ** Episode initializer, continued *)

Lemma uniform_between a b g :
  unit_draws g -> a <= b ->
  a <= fst (Rng.uniform a b g) <= b /\
  Rng.stream (snd (Rng.uniform a b g)) = Rng.stream g.
Proof.
  intros Hg Hab. unfold Rng.uniform, Rng.random. cbn [fst snd Rng.stream].
  pose proof (Hg (Rng.cursor g)) as Hu. split; [nra|reflexivity].
Qed.

Lemma sample_pos_within fld g :
  unit_draws g -> 0.4 <= Field.length fld -> 0.4 <= Field.width fld ->
  within fld 0.2 (fst (sample_pos fld g)) /\
  Rng.stream (snd (sample_pos fld g)) = Rng.stream g.
Proof.
  intros Hg HL HW. unfold sample_pos, x_, y_.
  destruct (Rng.uniform _ _ g) as [px g1] eqn:E1.
  destruct (Rng.uniform _ _ g1) as [py g2] eqn:E2.
  cbn [fst snd].
  destruct (uniform_between (- Field.length fld / 2 + 0.2)
              (Field.length fld / 2 - 0.2) g Hg) as [Hx S1]; [lra|].
  rewrite E1 in Hx, S1. cbn [fst snd] in Hx, S1.
  assert (Hg1 : unit_draws g1) by (eapply unit_draws_stream; eauto).
  destruct (uniform_between (- Field.width fld / 2 + 0.2)
              (Field.width fld / 2 - 0.2) g1 Hg1) as [Hy S2]; [lra|].
  rewrite E2 in Hy, S2. cbn [fst snd] in Hy, S2.
  split; [|congruence].
  unfold within. cbn [fst snd]. split; apply Rabs_le; lra.
Qed.

Lemma sample_ball_within fld g :
  unit_draws g -> 0.4 <= Field.length fld -> 0.4 <= Field.width fld ->
  within fld 0.2 (ball_pos (fst (sample_ball fld g))) /\
  Rng.stream (snd (sample_ball fld g)) = Rng.stream g.
Proof.
  intros Hg HL HW.
  pose proof (sample_pos_within fld g Hg HL HW) as H.
  unfold sample_pos, sample_ball in *.
  destruct (x_ fld g) as [px g1]. destruct (y_ fld g1) as [py g2].
  exact H.
Qed.

Lemma retry_ball_within fuel fld :
  0.4 <= Field.length fld -> 0.4 <= Field.width fld ->
  forall ball g ball' g',
    unit_draws g -> within fld 0.2 (ball_pos ball) ->
    retry_ball fuel fld ball g = Some (ball', g') ->
    within fld 0.2 (ball_pos ball') /\ Rng.stream g' = Rng.stream g.
Proof.
  intros HL HW.
  induction fuel as [|fuel IH]; intros ball g ball' g' Hg Hin;
    cbn [retry_ball];
    destruct (in_gk_area fld (Ball.x ball) (Ball.y ball)); try discriminate.
  - intros H; injection H as <- <-. now split.
  - destruct (sample_ball fld g) as [b g1] eqn:Es.
    pose proof (sample_ball_within fld g Hg HL HW) as [Hb Hs].
    rewrite Es in Hb, Hs. cbn [fst snd] in Hb, Hs.
    intros H. apply IH in H; [|eapply unit_draws_stream; eauto|exact Hb].
    destruct H as [H1 H2]. split; [exact H1|congruence].
  - intros H; injection H as <- <-. now split.
Qed.

Lemma retry_pos_within fuel fld places :
  0.4 <= Field.length fld -> 0.4 <= Field.width fld ->
  forall pos g pos' g',
    unit_draws g -> within fld 0.2 pos ->
    retry_pos fuel fld places pos g = Some (pos', g') ->
    within fld 0.2 pos' /\ Rng.stream g' = Rng.stream g.
Proof.
  intros HL HW.
  induction fuel as [|fuel IH]; intros pos g pos' g' Hg Hin;
    cbn [retry_pos];
    destruct (KDTree.get_nearest pos places) as [[q d]|]; cbn [bind];
    try discriminate;
    destruct (Rltb d min_dist); try discriminate.
  - intros H; injection H as <- <-. now split.
  - destruct (sample_pos fld g) as [p g1] eqn:Es.
    pose proof (sample_pos_within fld g Hg HL HW) as [Hb Hs].
    rewrite Es in Hb, Hs. cbn [fst snd] in Hb, Hs.
    intros H. apply IH in H; [|eapply unit_draws_stream; eauto|exact Hb].
    destruct H as [H1 H2]. split; [exact H1|congruence].
  - intros H; injection H as <- <-. now split.
Qed.

(** The placement loops, once more: how many robots they add, where, and
    with which headings. *)
Lemma place_robots_within fuel fld skip :
  0.4 <= Field.length fld -> 0.4 <= Field.width fld ->
  forall range places robots g places' robots' g',
    unit_draws g ->
    place_robots fuel fld range skip places robots g
      = Some (places', robots', g') ->
    exists new,
      robots' = robots ++ new /\
      List.length new
        = List.length (filter (fun i => negb (skip i)) range) /\
      Forall (fun r => within fld 0.2 (pos_of r)
                       /\ 0 <= Robot.theta r <= 360) new /\
      Rng.stream g' = Rng.stream g.
Proof.
  intros HL HW.
  induction range as [|i range IH];
    intros places robots g places' robots' g' Hg; cbn [place_robots filter].
  - intros H; injection H as _ <- <-. exists [].
    rewrite app_nil_r. repeat split. constructor.
  - destruct (skip i); cbn [negb]; [now apply IH|].
    destruct (sample_pos fld g) as [pos0 g0] eqn:Es.
    pose proof (sample_pos_within fld g Hg HL HW) as [Hb Hs].
    rewrite Es in Hb, Hs. cbn [fst snd] in Hb, Hs.
    assert (Hg0 : unit_draws g0) by (eapply unit_draws_stream; eauto).
    destruct (retry_pos fuel fld places pos0 g0) as [[pos g1]|] eqn:Hpos;
      cbn [bind]; [|discriminate].
    apply retry_pos_within in Hpos; try assumption.
    destruct Hpos as [Hin S1].
    assert (Hg1 : unit_draws g1) by (eapply unit_draws_stream; eauto).
    unfold theta_.
    destruct (Rng.uniform 0 360 g1) as [th g2] eqn:Et.
    destruct (uniform_between 0 360 g1 Hg1) as [Hth S2]; [lra|].
    rewrite Et in Hth, S2. cbn [fst snd] in Hth, S2.
    intros H. apply IH in H; [|eapply unit_draws_stream; eauto].
    destruct H as (new & -> & Hlen & Hall & S3).
    exists (Robot.placed (fst pos) (snd pos) th :: new).
    rewrite <- app_assoc. split; [reflexivity|].
    split; [cbn [List.length]; now rewrite Hlen|].
    split; [|congruence].
    constructor; [|exact Hall].
    split; [destruct pos; exact Hin|exact Hth].
Qed.

Lemma place_robots_length fuel fld skip : forall range places robots g
    places' robots' g',
  place_robots fuel fld range skip places robots g
    = Some (places', robots', g') ->
  exists new,
    robots' = robots ++ new /\
    List.length new = List.length (filter (fun i => negb (skip i)) range).
Proof.
  induction range as [|i range IH]; intros places robots g places' robots' g';
    cbn [place_robots filter].
  - intros H; injection H as _ <- _. exists []. now rewrite app_nil_r.
  - destruct (skip i); cbn [negb]; [now apply IH|].
    destruct (sample_pos fld g) as [pos0 g0].
    destruct (retry_pos fuel fld places pos0 g0) as [[pos g1]|];
      cbn [bind]; [|discriminate].
    destruct (theta_ g1) as [th g2].
    intros H. apply IH in H. destruct H as (new & -> & Hlen).
    exists (Robot.placed (fst pos) (snd pos) th :: new).
    rewrite <- app_assoc. split; [reflexivity|].
    cbn [List.length]. now rewrite Hlen.
Qed.

(** X19.  The start the initializer sets up: every frame it returns has
    three blue and three yellow robots; blue robot 0 stands 0.09 from the
    ball at some bearing and heads along that bearing plus 180 degrees;
    the environment differs from the one passed in by its [done_limit]
    only, set to the x of robot 0 less 0.5; and neither robot 0 nor the
    ball is behind that limit. *)
Theorem initial_frame_start (fuel : nat) (e : Env.t) (g : Rng.t)
    (f : Frame.t) (e' : Env.t) (g' : Rng.t) :
  get_initial_positions_frame fuel e g = Some (f, e', g') ->
  full_rosters f /\
  exists robot0 angle,
    nth_error (Frame.robots_blue f) 0 = Some robot0 /\
    Robot.x robot0 = Ball.x (Frame.ball f) + 0.09 * cos (deg2rad angle) /\
    Robot.y robot0 = Ball.y (Frame.ball f) + 0.09 * sin (deg2rad angle) /\
    Robot.theta robot0 = angle + 180 /\
    e' = Env.with_done_limit (Some (Robot.x robot0 - 0.5)) e /\
    ~ left_out (Robot.x robot0 - 0.5) robot0 (Frame.ball f).
Proof.
  unfold get_initial_positions_frame.
  destruct (sample_ball (Env.field e) g) as [b0 g0].
  destruct (retry_ball fuel (Env.field e) b0 g0) as [[ball g1]|];
    cbn [bind]; [|discriminate].
  destruct (theta_ g1) as [angle g2].
  destruct (place_robots fuel _ (seq 0 n_robots_blue) _ _ _ g2)
    as [[[places1 blues] g3]|] eqn:Hblue; cbn [bind]; [|discriminate].
  destruct (place_robots fuel _ (seq 0 n_robots_yellow) _ _ _ g3)
    as [[[places2 yellows] g4]|] eqn:Hyellow; cbn [bind]; [|discriminate].
  intros H; injection H as <- <- <-.
  apply place_robots_length in Hblue. destruct Hblue as (nb & -> & Lb).
  apply place_robots_length in Hyellow. destruct Hyellow as (ny & -> & Ly).
  cbn in Lb, Ly.
  split.
  - split; cbn [Frame.robots_blue Frame.robots_yellow app List.length].
    + now rewrite Lb.
    + now rewrite Ly.
  - eexists _, angle. cbn [Frame.robots_blue Frame.ball app nth_error].
    split; [reflexivity|].
    cbn [Robot.placed Robot.x Robot.y Robot.theta].
    repeat split.
    unfold left_out. cbn [Robot.x Robot.placed].
    pose proof (COS_bound (deg2rad angle)) as [_ Hc].
    intros [Hl|Hl]; lra.
Qed.

Lemma initial_frame_start_witness :
  exists f e' g',
    get_initial_positions_frame 0 Examples.env_fresh Examples.draws
      = Some (f, e', g') /\
    full_rosters f /\
    exists robot0 angle,
      nth_error (Frame.robots_blue f) 0 = Some robot0 /\
      Robot.x robot0 = Ball.x (Frame.ball f) + 0.09 * cos (deg2rad angle) /\
      Robot.y robot0 = Ball.y (Frame.ball f) + 0.09 * sin (deg2rad angle) /\
      Robot.theta robot0 = angle + 180 /\
      e' = Env.with_done_limit (Some (Robot.x robot0 - 0.5))
             Examples.env_fresh /\
      ~ left_out (Robot.x robot0 - 0.5) robot0 (Frame.ball f).
Proof.
  destruct initial_frame_run as (f & e' & g' & Hrun).
  exists f, e', g'. split; [exact Hrun|].
  exact (initial_frame_start 0 Examples.env_fresh Examples.draws f e' g' Hrun).
Defined.

Lemma within_weaken fld m m' p : m' <= m -> within fld m p -> within fld m' p.
Proof. unfold within. intros Hm [Hx Hy]. split; lra. Qed.

Lemma Rabs_bounds x m : Rabs x <= m -> - m <= x <= m.
Proof.
  intros H. pose proof (Rle_abs x). pose proof (Rle_abs (- x)) as Hn.
  rewrite Rabs_Ropp in Hn. lra.
Qed.

Lemma within_offset fld bx by_ a :
  within fld 0.2 (bx, by_) ->
  within fld 0.11 (bx + 0.09 * cos a, by_ + 0.09 * sin a).
Proof.
  unfold within. cbn [fst snd]. intros [Hx Hy].
  pose proof (COS_bound a) as [Hc1 Hc2].
  pose proof (SIN_bound a) as [Hs1 Hs2].
  apply Rabs_bounds in Hx, Hy.
  split; apply Rabs_le; lra.
Qed.

(** What the initializer returns under unit draws in [0, 1] on a field
    at least 0.4 long and wide. *)
Lemma initial_frame_margins fuel e g f e' g' :
  unit_draws g ->
  0.4 <= Field.length (Env.field e) -> 0.4 <= Field.width (Env.field e) ->
  get_initial_positions_frame fuel e g = Some (f, e', g') ->
  within (Env.field e) 0.2 (ball_pos (Frame.ball f)) /\
  (exists robot0 rest,
     Frame.robots_blue f = robot0 :: rest /\
     within (Env.field e) 0.11 (pos_of robot0) /\
     180 <= Robot.theta robot0 <= 540 /\
     Forall (fun r => within (Env.field e) 0.2 (pos_of r)
                      /\ 0 <= Robot.theta r <= 360)
            (rest ++ Frame.robots_yellow f)) /\
  unit_draws g'.
Proof.
  intros Hg HL HW. unfold get_initial_positions_frame.
  destruct (sample_ball (Env.field e) g) as [b0 g0] eqn:Es.
  pose proof (sample_ball_within _ g Hg HL HW) as [Hb0 S0].
  rewrite Es in Hb0, S0. cbn [fst snd] in Hb0, S0.
  assert (Hg0 : unit_draws g0) by (eapply unit_draws_stream; eauto).
  destruct (retry_ball fuel (Env.field e) b0 g0) as [[ball g1]|] eqn:Hball;
    cbn [bind]; [|discriminate].
  apply retry_ball_within in Hball; try assumption.
  destruct Hball as [Hb S1].
  assert (Hg1 : unit_draws g1) by (eapply unit_draws_stream; eauto).
  unfold theta_ at 1.
  destruct (Rng.uniform 0 360 g1) as [angle g2] eqn:Et.
  destruct (uniform_between 0 360 g1 Hg1) as [Hth S2]; [lra|].
  rewrite Et in Hth, S2. cbn [fst snd] in Hth, S2.
  assert (Hg2 : unit_draws g2) by (eapply unit_draws_stream; eauto).
  destruct (place_robots fuel _ (seq 0 n_robots_blue) _ _ _ g2)
    as [[[places1 blues] g3]|] eqn:Hblue; cbn [bind]; [|discriminate].
  apply place_robots_within in Hblue; try assumption.
  destruct Hblue as (nb & -> & _ & Hnb & S3).
  assert (Hg3 : unit_draws g3) by (eapply unit_draws_stream; eauto).
  destruct (place_robots fuel _ (seq 0 n_robots_yellow) _ _ _ g3)
    as [[[places2 yellows] g4]|] eqn:Hyellow; cbn [bind]; [|discriminate].
  apply place_robots_within in Hyellow; try assumption.
  destruct Hyellow as (ny & -> & _ & Hny & S4).
  intros H; injection H as <- _ <-.
  split; [exact Hb|]. split; [|eapply unit_draws_stream; eauto].
  eexists _, _. cbn [Frame.robots_blue Frame.robots_yellow app].
  split; [reflexivity|].
  cbn [Robot.placed Robot.theta pos_of Robot.x Robot.y].
  split; [apply within_offset; exact Hb|].
  split; [lra|]. apply Forall_app. now split.
Qed.

(** X20.  Inside the field: with unit draws in [0, 1] and a field at
    least 0.4 long and wide, every frame the initializer returns has the
    ball and the robots placed by the loops at least 0.2 inside the field
    with headings in [0, 360], blue robot 0 at least 0.11 inside with a
    heading in [180, 540], and the generator is left with unit draws in
    [0, 1]. *)
Theorem initial_frame_within (fuel : nat) (e : Env.t) (g : Rng.t)
    (f : Frame.t) (e' : Env.t) (g' : Rng.t) :
  unit_draws g ->
  0.4 <= Field.length (Env.field e) -> 0.4 <= Field.width (Env.field e) ->
  get_initial_positions_frame fuel e g = Some (f, e', g') ->
  Forall (within (Env.field e) 0.2) (loop_placed f) /\
  Forall (within (Env.field e) 0.11) (entities f) /\
  (exists robot0 rest,
     Frame.robots_blue f = robot0 :: rest /\
     180 <= Robot.theta robot0 <= 540 /\
     Forall (fun r => 0 <= Robot.theta r <= 360)
            (rest ++ Frame.robots_yellow f)) /\
  unit_draws g'.
Proof.
  intros Hg HL HW Hrun.
  destruct (initial_frame_margins _ _ _ _ _ _ Hg HL HW Hrun)
    as (Hball & (robot0 & rest & Hblue & H0 & Hth & Hall) & Hg').
  assert (Hpos : Forall (within (Env.field e) 0.2)
                   (map pos_of rest ++ map pos_of (Frame.robots_yellow f))).
  { rewrite <- map_app. apply Forall_map.
    eapply Forall_impl; [|exact Hall]. cbn. tauto. }
  split; [|split; [|split; [|exact Hg']]].
  - unfold loop_placed. rewrite Hblue. cbn [tl]. now constructor.
  - unfold entities. rewrite Hblue. cbn [map app].
    constructor; [eapply within_weaken; [|exact Hball]; lra|].
    constructor; [exact H0|].
    eapply Forall_impl; [|exact Hpos].
    intros p. apply within_weaken. lra.
  - exists robot0, rest. split; [exact Hblue|]. split; [exact Hth|].
    eapply Forall_impl; [|exact Hall]. cbn. tauto.
Qed.

Lemma draws_unit : unit_draws Examples.draws.
Proof.
  intros n. unfold Examples.draws. cbn [Rng.stream].
  do 18 (destruct n as [|n]; [cbn; lra|]). destruct n; cbn; lra.
Qed.

Lemma initial_frame_within_witness :
  exists f e' g',
    get_initial_positions_frame 0 Examples.env_fresh Examples.draws
      = Some (f, e', g') /\
    Forall (within (Env.field Examples.env_fresh) 0.2) (loop_placed f) /\
    Forall (within (Env.field Examples.env_fresh) 0.11) (entities f) /\
    (exists robot0 rest,
       Frame.robots_blue f = robot0 :: rest /\
       180 <= Robot.theta robot0 <= 540 /\
       Forall (fun r => 0 <= Robot.theta r <= 360)
              (rest ++ Frame.robots_yellow f)) /\
    unit_draws g'.
Proof.
  destruct initial_frame_run as (f & e' & g' & Hrun).
  exists f, e', g'. split; [exact Hrun|].
  apply (initial_frame_within 0 Examples.env_fresh Examples.draws f e' g').
  - exact draws_unit.
  - cbn. lra.
  - cbn. lra.
  - exact Hrun.
Defined.

Lemma engine_no_history e robot limit :
  nth_error (Frame.robots_blue (Env.frame e)) 0 = Some robot ->
  Env.done_limit e = Some limit ->
  Env.last_frame e = None ->
  ~ left_out limit robot (Frame.ball (Env.frame e)) ->
  ~ robot_out (Env.field e) robot ->
  ~ ball_out (Env.field e) (Frame.ball (Env.frame e)) ->
  calculate_reward_and_done e
  = Some (0, false, Env.with_reward_shaping_total Totals.zero e).
Proof.
  intros Hrobot Hlimit Hlast Hleft Hrout Hbout.
  unfold calculate_reward_and_done, shaped_reward.
  rewrite Hrobot, Hlimit, Hlast. cbn [bind].
  unfold left_out, robot_out, ball_out in *.
  engine_split; try reflexivity; exfalso; tauto.
Qed.

(** X21.  A start is in play: with unit draws in [0, 1] and a field at
    least 0.4 long and wide, the engine run on a frame the initializer
    returned, with the [done_limit] it set and no previous frame, reports
    reward 0, an episode that goes on and a mapping of zeros. *)
Theorem initial_frame_in_play (fuel : nat) (e : Env.t) (g : Rng.t)
    (f : Frame.t) (e' : Env.t) (g' : Rng.t) :
  unit_draws g ->
  0.4 <= Field.length (Env.field e) -> 0.4 <= Field.width (Env.field e) ->
  get_initial_positions_frame fuel e g = Some (f, e', g') ->
  calculate_reward_and_done (Env.with_last_frame None (Env.with_frame f e'))
  = Some (0, false,
          Env.with_reward_shaping_total Totals.zero
            (Env.with_last_frame None (Env.with_frame f e'))).
Proof.
  intros Hg HL HW Hrun.
  destruct (initial_frame_margins _ _ _ _ _ _ Hg HL HW Hrun)
    as (Hball & (robot0 & rest & Hblue & H0 & _ & _) & _).
  unfold get_initial_positions_frame in Hrun.
  destruct (sample_ball (Env.field e) g) as [b0 g0].
  destruct (retry_ball fuel (Env.field e) b0 g0) as [[ball g1]|];
    cbn [bind] in Hrun; [|discriminate].
  destruct (theta_ g1) as [angle g2].
  destruct (place_robots fuel _ (seq 0 n_robots_blue) _ _ _ g2)
    as [[[places1 blues] g3]|] eqn:Pb; cbn [bind] in Hrun; [|discriminate].
  destruct (place_robots fuel _ (seq 0 n_robots_yellow) _ _ _ g3)
    as [[[places2 yellows] g4]|]; cbn [bind] in Hrun; [|discriminate].
  injection Hrun as <- <- <-.
  apply place_robots_length in Pb. destruct Pb as (nb & -> & _).
  cbn [Frame.robots_blue Frame.ball app] in *. injection Hblue as <- _.
  unfold within, ball_pos, pos_of in *.
  cbn [fst snd Robot.placed Robot.x Robot.y] in *.
  destruct Hball as [Hbx Hby]. destruct H0 as [Hrx Hry].
  pose proof (COS_bound (deg2rad angle)) as [_ Hc].
  apply (engine_no_history _
           (Robot.placed (Ball.x ball + 0.09 * cos (deg2rad angle))
                         (Ball.y ball + 0.09 * sin (deg2rad angle))
                         (angle + 180))
           (Ball.x ball + 0.09 * cos (deg2rad angle) - 0.5));
    try reflexivity.
  - unfold left_out. cbn [Env.frame Env.with_last_frame Env.with_frame
      Frame.ball Robot.x Robot.placed]. intros [Hl|Hl]; lra.
  - unfold robot_out. cbn [Env.field Env.with_last_frame Env.with_frame
      Env.with_done_limit Robot.x Robot.y Robot.placed].
    intros [Hl|Hl]; lra.
  - unfold ball_out. cbn [Env.field Env.frame Env.with_last_frame
      Env.with_frame Env.with_done_limit Frame.ball].
    apply Rabs_bounds in Hbx. intros [Hl|[Hl|Hl]]; lra.
Qed.

Lemma initial_frame_in_play_witness :
  exists f e' g',
    get_initial_positions_frame 0 Examples.env_fresh Examples.draws
      = Some (f, e', g') /\
    calculate_reward_and_done (Env.with_last_frame None (Env.with_frame f e'))
    = Some (0, false,
            Env.with_reward_shaping_total Totals.zero
              (Env.with_last_frame None (Env.with_frame f e'))).
Proof.
  destruct initial_frame_run as (f & e' & g' & Hrun).
  exists f, e', g'. split; [exact Hrun|].
  apply (initial_frame_in_play 0 Examples.env_fresh Examples.draws f e' g').
  - exact draws_unit.
  - cbn. lra.
  - cbn. lra.
  - exact Hrun.
Defined.
